(** * PowerDNS Recursor input plugin: control-socket protocol

    A shallow embedding of the Go package [powerdns_recursor]
    (plugins/inputs/powerdns_recursor): the response decoder
    [parseResponse], the host-dependent length codec
    ([writeNativeUIntToConn], [readNativeUIntFromConn]), the datagram
    driver [gatherServer], the stream driver [gatherFromV3Server] and
    the loop [Gather].

    Go strings are byte sequences: they are [string] here (a list of
    8-bit [ascii]).  Byte slices are lists of 8-bit [Z].  Go integers
    are [Z] with the conversions' wrap-around written out. *)

From Stdlib Require Import ZArith List Ascii String Lia Bool.
From Stdlib Require DecimalString.
From stdpp Require Import base gmap strings.
Import ListNotations.

Local Open Scope Z_scope.

(** ** Characters and byte slices *)

Definition TAB : ascii := "009"%char.
Definition NL : ascii := "010"%char.

(** [[]byte(s)]: the bytes of a Go string. *)
Definition bytes_of_string (s : string) : list Z :=
  map (fun c => Z.of_N (N_of_ascii c)) (list_ascii_of_string s).

(** [string(b)]: the Go string holding the bytes of a slice. *)
Definition string_of_bytes (b : list Z) : string :=
  string_of_list_ascii (map (fun x => ascii_of_N (Z.to_N x)) b).

(** [make([]byte, n)] for a length that the runtime accepts: [n] zero bytes. *)
Definition zeros (n : Z) : list Z := repeat 0 (Z.to_nat n).

(** [len(x)] as a Go [int]. *)
Definition len {A} (l : list A) : Z := Z.of_nat (length l).

(** ** Errors

    Go's [error] values.  The messages built by [fmt.Errorf] and
    [errors.New] in the package are one constructor each, carrying the
    arguments of the format; errors coming from the operating system
    or from the [net] package carry their text. *)

Inductive error : Type :=
| OSError (msg : string)
    (* an error returned by net, os or the kernel *)
| ErrSyntax
    (* strconv.ErrSyntax, inside a *NumError *)
| ErrRange
    (* strconv.ErrRange, inside a *NumError *)
| ErrUnsupportedSystem
    (* "unsupported system configuration" *)
| ErrShortNativeUInt (n expected : Z)
    (* "did not read enough data for native uint: read '%v' bytes, expected '%v'" *)
| ErrNoStatusCode
    (* "no status code received" *)
| ErrZeroLength
    (* "received data length was 0" *)
| ErrLengthMismatch (expected got : Z)
    (* "no data received, expected '%v' bytes but got '%v'" *)
| ErrNoData.
    (* "no data received" *)

(** ** Library functions used by the decoder *)

(** [strings.Split(s, sep)] for a one-byte separator, the only kind
    the package passes: [s] is cut at every occurrence of [sep]; the
    result has one more element than [s] has separators, so it is
    never empty. *)
Fixpoint Split (s : string) (sep : ascii) : list string :=
  match s with
  | EmptyString => [EmptyString]
  | String c s' =>
      if Ascii.eqb c sep then EmptyString :: Split s' sep
      else match Split s' sep with
           | x :: xs => String c x :: xs
           | [] => [String c EmptyString]
           end
  end.

(** The value of a decimal digit, [None] for any other byte. *)
Definition digit_of (c : ascii) : option Z :=
  let n := Z.of_N (N_of_ascii c) in
  if (48 <=? n) && (n <=? 57) then Some (n - 48) else None.

(** The loop of [strconv.ParseUint(s, 10, 64)] over the bytes of [s],
    from the value [n] read so far.  A byte that is not a decimal
    digit is a syntax error; a value that no longer fits 64 bits
    returns the largest one with [ErrRange], before the bytes after it
    are looked at. *)
Fixpoint parseUintLoop (n : Z) (s : string) : Z * option error :=
  match s with
  | EmptyString => (n, None)
  | String c s' =>
      match digit_of c with
      | None => (0, Some ErrSyntax)
      | Some d =>
          if (2 ^ 64 - 1) / 10 + 1 <=? n then (2 ^ 64 - 1, Some ErrRange)
          else
            let n1 := n * 10 + d in
            if 2 ^ 64 - 1 <? n1 then (2 ^ 64 - 1, Some ErrRange)
            else parseUintLoop n1 s'
      end
  end.

(** [strconv.ParseUint(s, 10, 64)]: the value and the error. *)
Definition ParseUint (s : string) : Z * option error :=
  match s with
  | EmptyString => (0, Some ErrSyntax)
  | _ => parseUintLoop 0 s
  end.

(** [strconv.ParseInt(s, 10, 64)]: an optional sign, then
    [ParseUint]; a value outside the signed 64-bit range is clamped
    and reported with [ErrRange]. *)
Definition ParseInt (s : string) : Z * option error :=
  match s with
  | EmptyString => (0, Some ErrSyntax)
  | String c0 s1 =>
      let neg := Ascii.eqb c0 "-"%char in
      let s' := if Ascii.eqb c0 "+"%char || neg then s1 else s in
      match ParseUint s' with
      | (_, Some ErrSyntax) => (0, Some ErrSyntax)
      | (un, _) => (* no error, or [ErrRange] *)
          let cutoff := 2 ^ 63 in
          if negb neg && (cutoff <=? un) then (cutoff - 1, Some ErrRange)
          else if neg && (cutoff <? un) then (- cutoff, Some ErrRange)
          else (if neg then - un else un, None)
      end
  end.

(** ** The response decoder (protocol_commons.go, [parseResponse])

    powerdns_recursor.go declares the same function, with one more
    statement: a log line when the integer does not parse.  The log
    is not part of the result and is left out. *)

(** [s[:hi]] on a slice.  Go panics when [hi] is out of range; the one
    use below has [hi = len(s) - 1] with [s] never empty
    ([Split_nonempty]). *)
Definition slice_to {A} (s : list A) (hi : Z) : list A :=
  firstn (Z.to_nat hi) s.

(** The body of the [for] loop: one line, and the map so far. *)
Definition parseLine (values : gmap string Z) (metric : string)
  : gmap string Z :=
  let m := Split metric TAB in
  if len m <? 2 then values
  else
    match ParseInt (nth 1 m EmptyString) with
    | (i, Some err) => values
    | (i, None) => <[nth 0 m EmptyString := i]> values
    end.

Definition parseResponse (metrics : string) : gmap string Z :=
  let s := Split metrics NL in
  fold_left parseLine (slice_to s (len s - 1)) ∅.

(** The text made of the given lines, each followed by a line break. *)
Fixpoint unlines (ls : list string) : string :=
  match ls with
  | [] => EmptyString
  | l :: ls' => l +:+ String NL (unlines ls')
  end.

(** [c] does not occur in [s]. *)
Fixpoint lacks (c : ascii) (s : string) : bool :=
  match s with
  | EmptyString => true
  | String a s' => negb (Ascii.eqb a c) && lacks c s'
  end.

(** The lines the loop of [parseResponse] ranges over: [s[:len(s)-1]]. *)
Definition loop_lines (metrics : string) : list string :=
  let s := Split metrics NL in slice_to s (len s - 1).


(** [line] is a line the loop stores: it has at least two fields, the
    first is [k] and the second parses to [v]. *)
Definition valid_line (line k : string) (v : Z) : Prop :=
  2 <= len (Split line TAB)
  /\ nth 0 (Split line TAB) EmptyString = k
  /\ ParseInt (nth 1 (Split line TAB) EmptyString) = (v, None).

(** The response text listing the given (name, value text) pairs, one
    per line: name, tab, value, line break. *)
Definition response_of (entries : list (string * string)) : string :=
  unlines (map (fun e => e.1 +:+ String TAB e.2) entries).

(** ** The platform (protocol_commons.go)

    The length field of the stream protocol has the width and the byte
    order of the machine the plugin runs on. *)

Inductive ByteOrder : Type := LittleEndian | BigEndian.

Record Platform : Type := {
  IntSize : Z;            (* strconv.IntSize: the bits of int and uint *)
  nativeOrder : ByteOrder; (* how the machine lays out integers in memory *)
  maxAlloc : Z             (* the largest allocation the runtime accepts *)
}.

(** [byte(x)], [uint32(x)], [uint64(x)]: conversions keep the low bits. *)
Definition byte_of (x : Z) : Z := Z.land x 255.
Definition uint32 (x : Z) : Z := x mod 2 ^ 32.
Definition uint64 (x : Z) : Z := x mod 2 ^ 64.

(** [encoding/binary]: [order.PutUint32(b, v)] and [order.PutUint64(b, v)]
    overwrite the first 4 or 8 bytes of [b] (which must have as many);
    [order.Uint32(b)] and [order.Uint64(b)] read them back. *)
Definition PutUint32 (order : ByteOrder) (b : list Z) (v : Z) : list Z :=
  match order with
  | LittleEndian =>
      [byte_of v; byte_of (Z.shiftr v 8); byte_of (Z.shiftr v 16);
       byte_of (Z.shiftr v 24)]
  | BigEndian =>
      [byte_of (Z.shiftr v 24); byte_of (Z.shiftr v 16);
       byte_of (Z.shiftr v 8); byte_of v]
  end ++ skipn 4 b.

Definition PutUint64 (order : ByteOrder) (b : list Z) (v : Z) : list Z :=
  match order with
  | LittleEndian =>
      [byte_of v; byte_of (Z.shiftr v 8); byte_of (Z.shiftr v 16);
       byte_of (Z.shiftr v 24); byte_of (Z.shiftr v 32);
       byte_of (Z.shiftr v 40); byte_of (Z.shiftr v 48);
       byte_of (Z.shiftr v 56)]
  | BigEndian =>
      [byte_of (Z.shiftr v 56); byte_of (Z.shiftr v 48);
       byte_of (Z.shiftr v 40); byte_of (Z.shiftr v 32);
       byte_of (Z.shiftr v 24); byte_of (Z.shiftr v 16);
       byte_of (Z.shiftr v 8); byte_of v]
  end ++ skipn 8 b.

(** [b[i]] of a slice known to be long enough. *)
Definition at_ (b : list Z) (i : nat) : Z := nth i b 0.

Definition Uint32 (order : ByteOrder) (b : list Z) : Z :=
  match order with
  | LittleEndian =>
      Z.lor (Z.lor (Z.lor (at_ b 0) (Z.shiftl (at_ b 1) 8))
                   (Z.shiftl (at_ b 2) 16))
            (Z.shiftl (at_ b 3) 24)
  | BigEndian =>
      Z.lor (Z.lor (Z.lor (at_ b 3) (Z.shiftl (at_ b 2) 8))
                   (Z.shiftl (at_ b 1) 16))
            (Z.shiftl (at_ b 0) 24)
  end.

Definition Uint64 (order : ByteOrder) (b : list Z) : Z :=
  match order with
  | LittleEndian =>
      Z.lor (Z.lor (Z.lor (Z.lor (Z.lor (Z.lor (Z.lor
        (at_ b 0) (Z.shiftl (at_ b 1) 8)) (Z.shiftl (at_ b 2) 16))
        (Z.shiftl (at_ b 3) 24)) (Z.shiftl (at_ b 4) 32))
        (Z.shiftl (at_ b 5) 40)) (Z.shiftl (at_ b 6) 48))
        (Z.shiftl (at_ b 7) 56)
  | BigEndian =>
      Z.lor (Z.lor (Z.lor (Z.lor (Z.lor (Z.lor (Z.lor
        (at_ b 7) (Z.shiftl (at_ b 6) 8)) (Z.shiftl (at_ b 5) 16))
        (Z.shiftl (at_ b 4) 24)) (Z.shiftl (at_ b 3) 32))
        (Z.shiftl (at_ b 2) 40)) (Z.shiftl (at_ b 1) 48))
        (Z.shiftl (at_ b 0) 56)
  end.

(** ** The world outside the plugin

    Sockets, files, the random generator and the accumulator are
    state.  What the operating system and the remote end answer is not
    decided by the plugin: the world holds the answers still to come,
    consumed one per call, so a property proved for every world holds
    for every behaviour of the environment. *)

(** How one [Write] ends: every byte sent, or the first [n] and an error. *)
Inductive WriteAnswer : Type :=
| WriteOk
| WriteFail (n : nat) (e : error).

(** What one [Read] delivers: the bytes that arrived and the error. *)
Record ReadAnswer : Type := {
  rd_data : list Z;
  rd_err : option error
}.

(** One socket, from its creation to its close: the answers to the
    calls the plugin makes on it. *)
Record Socket : Type := {
  deadline_answer : option error;
  write_answers : list WriteAnswer;
  read_answers : list ReadAnswer;
  close_answer : option error
}.

(** How one dial ends.  A failed [DialUnix] may have bound the local
    address already, leaving its socket file behind. *)
Inductive DialAnswer : Type :=
| DialOk (s : Socket)
| DialFail (bound : bool) (e : error).

(** What [telegraf.Accumulator] receives. *)
Inductive AccEvent : Type :=
| AddFields (measurement : string) (fields : gmap string Z)
            (tags : gmap string string)
| AddError (e : error).

Record World : Type := {
  rand_src : list Z;            (* the next results of rand.Int63 *)
  dial_src : list DialAnswer;   (* the answers to the next dials *)
  chmod_src : list (option error); (* the answers to the next os.Chmod *)
  files : gset string;          (* the paths that exist *)
  socks : gmap nat Socket;      (* the open connections, by descriptor *)
  next_fd : nat;                (* the descriptor of the next connection *)
  sent : list (list Z);         (* the bytes each Write put on its socket *)
  acc : list AccEvent           (* what the accumulator got, in order *)
}.

Definition set_rand_src (x : list Z) (w : World) : World :=
  {| rand_src := x; dial_src := dial_src w; chmod_src := chmod_src w;
     files := files w; socks := socks w; next_fd := next_fd w;
     sent := sent w; acc := acc w |}.

Definition set_dial_src (x : list DialAnswer) (w : World) : World :=
  {| rand_src := rand_src w; dial_src := x; chmod_src := chmod_src w;
     files := files w; socks := socks w; next_fd := next_fd w;
     sent := sent w; acc := acc w |}.

Definition set_chmod_src (x : list (option error)) (w : World) : World :=
  {| rand_src := rand_src w; dial_src := dial_src w; chmod_src := x;
     files := files w; socks := socks w; next_fd := next_fd w;
     sent := sent w; acc := acc w |}.

Definition set_files (x : gset string) (w : World) : World :=
  {| rand_src := rand_src w; dial_src := dial_src w; chmod_src := chmod_src w;
     files := x; socks := socks w; next_fd := next_fd w;
     sent := sent w; acc := acc w |}.

Definition set_socks (x : gmap nat Socket) (w : World) : World :=
  {| rand_src := rand_src w; dial_src := dial_src w; chmod_src := chmod_src w;
     files := files w; socks := x; next_fd := next_fd w;
     sent := sent w; acc := acc w |}.

Definition set_next_fd (x : nat) (w : World) : World :=
  {| rand_src := rand_src w; dial_src := dial_src w; chmod_src := chmod_src w;
     files := files w; socks := socks w; next_fd := x;
     sent := sent w; acc := acc w |}.

Definition set_sent (x : list (list Z)) (w : World) : World :=
  {| rand_src := rand_src w; dial_src := dial_src w; chmod_src := chmod_src w;
     files := files w; socks := socks w; next_fd := next_fd w;
     sent := x; acc := acc w |}.

Definition set_acc (x : list AccEvent) (w : World) : World :=
  {| rand_src := rand_src w; dial_src := dial_src w; chmod_src := chmod_src w;
     files := files w; socks := socks w; next_fd := next_fd w;
     sent := sent w; acc := x |}.

Definition set_write_answers (x : list WriteAnswer) (s : Socket) : Socket :=
  {| deadline_answer := deadline_answer s; write_answers := x;
     read_answers := read_answers s; close_answer := close_answer s |}.

Definition set_read_answers (x : list ReadAnswer) (s : Socket) : Socket :=
  {| deadline_answer := deadline_answer s; write_answers := write_answers s;
     read_answers := x; close_answer := close_answer s |}.

(** ** Computations

    A Go function body is a function of the world that returns a
    value, or panics, and the world it leaves. *)

Inductive outcome (A : Type) : Type :=
| Ret (a : A)
| Panic (msg : string).
Arguments Ret {A} a.
Arguments Panic {A} msg.

Definition M (A : Type) : Type := World -> outcome A * World.

Definition ret {A} (a : A) : M A := fun w => (Ret a, w).

Definition bind {A B} (m : M A) (f : A -> M B) : M B :=
  fun w =>
    match m w with
    | (Ret a, w') => f a w'
    | (Panic msg, w') => (Panic msg, w')
    end.

Definition panic {A} (msg : string) : M A := fun w => (Panic msg, w).

(** [defer cleanup(); body]: the deferred call runs when the body is
    left, by a return or by a panic, and its results are dropped. *)
Definition defer {A B} (cleanup : M B) (body : M A) : M A :=
  fun w =>
    let (r, w1) := body w in
    match cleanup w1 with
    | (Ret _, w2) => (r, w2)
    | (Panic msg, w2) => (Panic msg, w2)
    end.

Notation "x <- m ; k" := (bind m (fun x => k))
  (at level 20, m at level 100, k at level 200, only parsing).
Notation "' pat <- m ; k" := (bind m (fun x => match x with pat => k end))
  (at level 20, pat pattern, m at level 100, k at level 200, only parsing).

(** [if err != nil { return err }] *)
Notation "'check' err ; k" :=
  (match err with Some e => ret (Some e) | None => k end)
  (at level 20, err at level 100, k at level 200, only parsing).

(** ** The calls into Go's library and the operating system *)

Definition ErrClosed : error := OSError "use of closed network connection".
Definition ErrTimeout : error := OSError "i/o timeout".
Definition ErrNotExist : error := OSError "no such file or directory".

(** [rand.Int63()] *)
Definition rand_Int63 : M Z :=
  fun w =>
    match rand_src w with
    | [] => (Ret 0, w)
    | x :: rest => (Ret x, set_rand_src rest w)
    end.

(** [net.UnixAddr] *)
Record UnixAddr : Type := { Name : string; Net : string }.

(** [net.ResolveUnixAddr(network, address)]: the address as given, for
    the three Unix networks; any other network is an error. *)
Definition ResolveUnixAddr (network address : string) : UnixAddr + error :=
  if String.eqb network "unix" || String.eqb network "unixgram"
     || String.eqb network "unixpacket"
  then inl {| Name := address; Net := network |}
  else inr (OSError ("unknown network " +:+ network)).

(** The connection a successful dial opens: a new descriptor. *)
Definition open_socket (s : Socket) (w : World) : nat * World :=
  (next_fd w,
   set_next_fd (S (next_fd w)) (set_socks (<[next_fd w := s]> (socks w)) w)).

(** [net.Dial("unix", address)]: a stream connection to [address]. *)
Definition net_Dial (network address : string) : M (nat + error) :=
  fun w =>
    match dial_src w with
    | [] => (Ret (inr ErrNotExist), w)
    | DialOk s :: rest =>
        let (fd, w') := open_socket s (set_dial_src rest w) in
        (Ret (inl fd), w')
    | DialFail _ e :: rest => (Ret (inr e), set_dial_src rest w)
    end.

(** [net.DialUnix("unixgram", laddr, raddr)]: a datagram socket bound
    to the path of [laddr], which creates that file, and connected to
    [raddr]. *)
Definition net_DialUnix (network : string) (laddr raddr : UnixAddr)
  : M (nat + error) :=
  fun w =>
    match dial_src w with
    | [] => (Ret (inr ErrNotExist), w)
    | DialOk s :: rest =>
        let (fd, w') :=
          open_socket s
            (set_files ({[Name laddr]} ∪ files w) (set_dial_src rest w)) in
        (Ret (inl fd), w')
    | DialFail bound e :: rest =>
        (Ret (inr e),
         set_files (if bound then {[Name laddr]} ∪ files w else files w)
                   (set_dial_src rest w))
    end.

(** [os.Chmod(name, mode)] *)
Definition os_Chmod (name : string) (mode : Z) : M (option error) :=
  fun w =>
    match chmod_src w with
    | [] => (Ret (if decide (name ∈ files w) then None else Some ErrNotExist),
             w)
    | a :: rest => (Ret a, set_chmod_src rest w)
    end.

(** [os.Remove(name)]: the path is gone afterwards; removing a path
    that does not exist is an error.  (A removal that the operating
    system refuses is not modelled.) *)
Definition os_Remove (name : string) : M (option error) :=
  fun w =>
    if decide (name ∈ files w)
    then (Ret None, set_files (files w ∖ {[name]}) w)
    else (Ret (Some ErrNotExist), w).

(** [conn.SetDeadline(t)] *)
Definition conn_SetDeadline (conn : nat) : M (option error) :=
  fun w =>
    match socks w !! conn with
    | None => (Ret (Some ErrClosed), w)
    | Some s => (Ret (deadline_answer s), w)
    end.

(** [conn.Write(b)]: the number of bytes written and the error. *)
Definition conn_Write (conn : nat) (b : list Z) : M (Z * option error) :=
  fun w =>
    match socks w !! conn with
    | None => (Ret (0, Some ErrClosed), w)
    | Some s =>
        match write_answers s with
        | [] => (Ret (0, Some ErrTimeout), w)
        | WriteOk :: rest =>
            (Ret (len b, None),
             set_sent (sent w ++ [b])
               (set_socks (<[conn := set_write_answers rest s]> (socks w)) w))
        | WriteFail n e :: rest =>
            (Ret (len (firstn n b), Some e),
             set_sent (sent w ++ [firstn n b])
               (set_socks (<[conn := set_write_answers rest s]> (socks w)) w))
        end
    end.

(** The bytes a [Read] into a buffer of [k] bytes takes from what arrived. *)
Definition received (k : nat) (data : list Z) : list Z :=
  map byte_of (firstn k data).

(** [conn.Read(b)]: the buffer afterwards (its first [n] bytes
    overwritten), [n] and the error. *)
Definition conn_Read (conn : nat) (b : list Z)
  : M (list Z * Z * option error) :=
  fun w =>
    match socks w !! conn with
    | None => (Ret (b, 0, Some ErrClosed), w)
    | Some s =>
        match read_answers s with
        | [] => (Ret (b, 0, Some ErrTimeout), w)
        | a :: rest =>
            let got := received (length b) (rd_data a) in
            (Ret (got ++ skipn (length got) b, len got, rd_err a),
             set_socks (<[conn := set_read_answers rest s]> (socks w)) w)
        end
    end.

(** [conn.Close()]: a second close of the same connection is an error. *)
Definition conn_Close (conn : nat) : M (option error) :=
  fun w =>
    match socks w !! conn with
    | None => (Ret (Some ErrClosed), w)
    | Some s => (Ret (close_answer s), set_socks (delete conn (socks w)) w)
    end.

(** [acc.AddFields(measurement, fields, tags)] and [acc.AddError(err)] *)
Definition acc_AddFields (measurement : string) (fields : gmap string Z)
    (tags : gmap string string) : M unit :=
  fun w => (Ret tt, set_acc (acc w ++ [AddFields measurement fields tags]) w).

Definition acc_AddError (e : error) : M unit :=
  fun w => (Ret tt, set_acc (acc w ++ [AddError e]) w).

(** [make([]byte, n)] for a length computed at run time: the runtime
    panics when [n] does not fit an [int] or exceeds what it can
    allocate.  (Running out of memory below that bound is not
    modelled.) *)
Definition make_bytes (plat : Platform) (n : Z) : M (list Z) :=
  if (0 <=? n) && (n <=? 2 ^ (IntSize plat - 1) - 1) && (n <=? maxAlloc plat)
  then ret (zeros n)
  else panic "runtime error: makeslice: len out of range".

(** [fmt.Sprintf("%d", n)] *)
Definition format_d (n : Z) : string :=
  DecimalString.NilZero.string_of_int (Z.to_int n).

(** ** protocol_commons.go: the native integer codec *)

(** [uint(x)]: the low [IntSize] bits. *)
Definition uint (plat : Platform) (x : Z) : Z := x mod 2 ^ IntSize plat.

Definition uintSizeInBytes (plat : Platform) : Z := Z.quot (IntSize plat) 8.

(** The machine's store of a 16-bit value at an address, as the two
    bytes found there afterwards. *)
Definition store_uint16 (plat : Platform) (v : Z) : list Z :=
  match nativeOrder plat with
  | LittleEndian => [byte_of v; byte_of (Z.shiftr v 8)]
  | BigEndian => [byte_of (Z.shiftr v 8); byte_of v]
  end.

Definition getEndianness (plat : Platform) : ByteOrder :=
  let buf := store_uint16 plat 1 in
  if at_ buf 0 =? 1 then LittleEndian else BigEndian.

Definition writeNativeUIntToConn (plat : Platform) (conn : nat) (value : Z)
  : M (Z * option error) :=
  let intData := zeros (uintSizeInBytes plat) in
  if uintSizeInBytes plat =? 4 then
    conn_Write conn (PutUint32 (getEndianness plat) intData (uint32 value))
  else if uintSizeInBytes plat =? 8 then
    conn_Write conn (PutUint64 (getEndianness plat) intData (uint64 value))
  else ret (0, Some ErrUnsupportedSystem).

Definition readNativeUIntFromConn (plat : Platform) (conn : nat)
  : M (Z * option error) :=
  let intData := zeros (uintSizeInBytes plat) in
  '(intData, n, err) <- conn_Read conn intData ;
  match err with
  | Some e => ret (0, Some e)
  | None =>
      if negb (n =? uintSizeInBytes plat) then
        ret (0, Some (ErrShortNativeUInt n (uintSizeInBytes plat)))
      else if uintSizeInBytes plat =? 4 then
        ret (uint plat (Uint32 (getEndianness plat) intData), None)
      else if uintSizeInBytes plat =? 8 then
        ret (uint plat (Uint64 (getEndianness plat) intData), None)
      else ret (0, Some ErrUnsupportedSystem)
  end.

(** ** The stream driver, protocol version 3 ([gatherFromV3Server]) *)

Definition measurement : string := "powerdns_recursor".

Definition gatherFromV3Server (plat : Platform) (address : string)
  : M (option error) :=
  r <- net_Dial "unix" address ;
  match r with
  | inr err => ret (Some err)
  | inl conn =>
    defer (conn_Close conn) (
      err <- conn_SetDeadline conn ;
      check err ;
      (* Write 4-byte response code. *)
      '(_, err) <- conn_Write conn [0; 0; 0; 0] ;
      check err ;
      let command := bytes_of_string "get-all" in
      '(_, err) <- writeNativeUIntToConn plat conn (uint plat (len command)) ;
      check err ;
      '(_, err) <- conn_Write conn command ;
      check err ;
      (* Now read the response. *)
      let status := zeros 4 in
      '(status, n, err) <- conn_Read conn status ;
      check err ;
      if n =? 0 then ret (Some ErrNoStatusCode) else
      '(responseLength, err) <- readNativeUIntFromConn plat conn ;
      check err ;
      if responseLength =? 0 then ret (Some ErrZeroLength) else
      data <- make_bytes plat responseLength ;
      '(data, n, err) <- conn_Read conn data ;
      check err ;
      if negb (uint plat n =? responseLength)
      then ret (Some (ErrLengthMismatch responseLength n)) else
      (* Process data *)
      let metrics := string_of_bytes data in
      let fields := parseResponse metrics in
      (* Add server socket as a tag *)
      let tags : gmap string string := {["server" := address]} in
      _ <- acc_AddFields measurement fields tags ;
      conn_Close conn)
  end.

(** ** The plugin (powerdns_recursor.go) *)

Record PowerdnsRecursor : Type := {
  UnixSockets : list string;
  SocketDir : string;
  SocketMode : string;
  NewControlProtocol : bool;
  mode : Z
}.

Section Legacy.

(** [filepath.Join] of Go's library: it joins its arguments with the
    separator and cleans the result. *)
Variable filepath_Join : list string -> string.

Definition gatherServer (p : PowerdnsRecursor) (address : string)
    (newProtocol : bool) : M (option error) :=
  randomNumber <- rand_Int63 ;
  let recvSocket :=
    filepath_Join ["/"; "var"; "run";
                   "pdns_recursor_telegraf" +:+ format_d randomNumber] in
  let recvSocket :=
    if negb (String.eqb (SocketDir p) "")
    then filepath_Join [SocketDir p;
                        "pdns_recursor_telegraf" +:+ format_d randomNumber]
    else recvSocket in
  match ResolveUnixAddr "unixgram" recvSocket with
  | inr err => ret (Some err)
  | inl laddr =>
    defer (os_Remove recvSocket) (
      match ResolveUnixAddr "unixgram" address with
      | inr err => ret (Some err)
      | inl raddr =>
        r <- net_DialUnix "unixgram" laddr raddr ;
        match r with
        | inr err => ret (Some err)
        | inl conn =>
          err <- os_Chmod recvSocket (mode p) ;
          check err ;
          defer (conn_Close conn) (
            err <- conn_SetDeadline conn ;
            check err ;
            err <- (if newProtocol then
                      (* First send a 0 status code. *)
                      '(_, err) <- conn_Write conn [0; 0; 0; 0] ;
                      ret err
                    else ret None) ;
            check err ;
            (* Then send the get-all command. *)
            let command := "get-all" +:+ String NL "" in
            let command := if newProtocol then "get-all" else command in
            '(_, err) <- conn_Write conn (bytes_of_string command) ;
            check err ;
            err <- (if newProtocol then
                      (* Read the response status code. *)
                      let status := zeros 4 in
                      '(status, n, err) <- conn_Read conn status ;
                      match err with
                      | Some e => ret (Some e)
                      | None =>
                          if n =? 0 then ret (Some ErrNoStatusCode)
                          else ret None
                      end
                    else ret None) ;
            check err ;
            (* Read the response data. *)
            let buf := zeros 16384 in
            '(buf, n, err) <- conn_Read conn buf ;
            check err ;
            if n =? 0 then ret (Some ErrNoData) else
            let metrics := string_of_bytes buf in
            (* Process data *)
            let fields := parseResponse metrics in
            (* Add server socket as a tag *)
            let tags : gmap string string := {["server" := address]} in
            _ <- acc_AddFields measurement fields tags ;
            conn_Close conn)
        end
      end)
  end.

(** The [for] loop of [Gather] over the configured sockets. *)
Fixpoint gatherEach (p : PowerdnsRecursor) (sockets : list string) : M unit :=
  match sockets with
  | [] => ret tt
  | serverSocket :: rest =>
      err <- gatherServer p serverSocket (NewControlProtocol p) ;
      _ <- match err with
           | Some e => acc_AddError e
           | None => ret tt
           end ;
      gatherEach p rest
  end.

Definition Gather (p : PowerdnsRecursor) : M (option error) :=
  if len (UnixSockets p) =? 0 then
    gatherServer p "/var/run/pdns_recursor.controlsocket"
                 (NewControlProtocol p)
  else
    _ <- gatherEach p (UnixSockets p) ;
    ret None.

End Legacy.

(** ** Sample platforms and environments *)

Definition linux_amd64 : Platform :=
  {| IntSize := 64; nativeOrder := LittleEndian; maxAlloc := 2 ^ 48 |}.
Definition linux_s390x : Platform :=
  {| IntSize := 64; nativeOrder := BigEndian; maxAlloc := 2 ^ 48 |}.
Definition linux_386 : Platform :=
  {| IntSize := 32; nativeOrder := LittleEndian; maxAlloc := 2 ^ 32 - 1 |}.
Definition linux_mips : Platform :=
  {| IntSize := 32; nativeOrder := BigEndian; maxAlloc := 2 ^ 32 - 1 |}.

(** A socket on which every call succeeds and the given reads arrive. *)
Definition socket_with (reads : list (list Z)) : Socket :=
  {| deadline_answer := None;
     write_answers := [WriteOk; WriteOk; WriteOk];
     read_answers := map (fun d => {| rd_data := d; rd_err := None |}) reads;
     close_answer := None |}.

(** A world with no file and no connection, where the dials to come
    end as listed. *)
Definition world_with (dials : list DialAnswer) : World :=
  {| rand_src := [4037200794235010051; 3916589616287113937;
                  6334824724549167320];
     dial_src := dials; chmod_src := [];
     files := ∅; socks := ∅; next_fd := 3; sent := []; acc := [] |}.

(** A world with one open connection, descriptor 3. *)
Definition connected (s : Socket) : World :=
  {| rand_src := []; dial_src := []; chmod_src := [];
     files := ∅; socks := {[3%nat := s]}; next_fd := 4;
     sent := []; acc := [] |}.

(** [filepath.Join] on arguments that need no cleaning. *)
Definition join_plain (parts : list string) : string :=
  match parts with
  | "/" :: rest => "/" +:+ String.concat "/" rest
  | _ => String.concat "/" parts
  end.

(** ** Properties of computations *)

(** [m] leaves the component [f] of the world as it found it. *)
Definition keeps {A X} (f : World -> X) (m : M A) : Prop :=
  forall w, f (snd (m w)) = f w.

(** [m] returns: it never panics. *)
Definition returns {A} (m : M A) : Prop :=
  forall w, exists a w', m w = (Ret a, w').

(** [m] only adds to what the accumulator holds. *)
Definition records {A} (m : M A) : Prop :=
  forall w, exists l, acc (snd (m w)) = acc w ++ l.

(** The slice [intData] that [writeNativeUIntToConn] passes to
    [conn.Write] on a platform of 4 or 8 bytes per [uint]. *)
Definition nativeUIntBytes (plat : Platform) (value : Z) : list Z :=
  if uintSizeInBytes plat =? 4 then
    PutUint32 (getEndianness plat) (zeros 4) (uint32 value)
  else
    PutUint64 (getEndianness plat) (zeros 8) (uint64 value).

(** The path of the local endpoint that [gatherServer] computes from
    its random number. *)
Definition recvSocket_of (filepath_Join : list string -> string)
    (p : PowerdnsRecursor) (randomNumber : Z) : string :=
  if negb (String.eqb (SocketDir p) "")
  then filepath_Join [SocketDir p;
                      "pdns_recursor_telegraf" +:+ format_d randomNumber]
  else filepath_Join ["/"; "var"; "run";
                      "pdns_recursor_telegraf" +:+ format_d randomNumber].

(** A reply of two metrics, and plugins to query with. *)
Definition two_metrics : list Z :=
  bytes_of_string
    ("a" +:+ String TAB ("1" +:+ String NL ("b" +:+ String TAB
       ("2" +:+ String NL "")))).

Definition plugin_new : PowerdnsRecursor :=
  {| UnixSockets := ["/run/pdns.controlsocket"]; SocketDir := "";
     SocketMode := ""; NewControlProtocol := true; mode := 438 |}.

Definition plugin_three : PowerdnsRecursor :=
  {| UnixSockets := ["/run/a.sock"; "/run/b.sock"; "/run/c.sock"];
     SocketDir := "/tmp"; SocketMode := "0666";
     NewControlProtocol := false; mode := 438 |}.

(** Three targets: the socket of the second does not exist. *)
Definition world_three : World :=
  world_with [DialOk (socket_with [two_metrics]);
              DialFail false ErrNotExist;
              DialOk (socket_with [two_metrics])].

(** * The rest of the package

    Definitions for the parts of the package not reached so far:
    [Init], and the sample values the facts below are tried on. *)

(** A machine whose [uint] has neither 4 nor 8 bytes. *)
Definition sixteen_bit : Platform :=
  {| IntSize := 16; nativeOrder := LittleEndian; maxAlloc := 2 ^ 16 - 1 |}.

(** The connections other than [conn]. *)
Definition others (conn : nat) (w : World) : gmap nat Socket :=
  delete conn (socks w).

(** [m] adds nothing to the accumulator, or one record of the
    measurement tagged with the address of the server. *)
Definition reports {A} (address : string) (m : M A) : Prop :=
  forall w,
    acc (snd (m w)) = acc w
    \/ exists fields,
         acc (snd (m w))
         = acc w ++ [AddFields measurement fields {["server" := address]}].




(** ** Init (powerdns_recursor.go)

    [Init] reads the permission bits of the client socket from the
    [socket_mode] setting with [strconv.ParseUint(p.SocketMode, 8, 32)]. *)

(** [lower] of strconv: the byte with its case bit set. *)
Definition lower (c : Z) : Z := Z.lor c 32.

(** The digit a byte stands for in [strconv.ParseUint]: a decimal
    digit, or a letter of either case from ten on; [None] for any
    other byte. *)
Definition digit_in_base (c : ascii) : option Z :=
  let n := Z.of_N (N_of_ascii c) in
  if (48 <=? n) && (n <=? 57) then Some (n - 48)
  else if (97 <=? lower n) && (lower n <=? 122) then Some (lower n - 97 + 10)
  else None.

(** The loop of [strconv.ParseUint] over the bytes of [s] for a given
    base and largest value, from the value [n] read so far, in 64-bit
    arithmetic.  A byte that is no digit of the base is a syntax
    error; a value that no longer fits returns the largest one with
    [ErrRange], before the bytes after it are looked at. *)
Fixpoint parseUintLoopIn (base maxVal n : Z) (s : string)
    : Z * option error :=
  match s with
  | EmptyString => (n, None)
  | String c s' =>
      match digit_in_base c with
      | None => (0, Some ErrSyntax)
      | Some d =>
          if base <=? d then (0, Some ErrSyntax)
          else if (2 ^ 64 - 1) / base + 1 <=? n then (maxVal, Some ErrRange)
          else
            let n := uint64 (n * base) in
            let n1 := uint64 (n + d) in
            if (n1 <? n) || (maxVal <? n1) then (maxVal, Some ErrRange)
            else parseUintLoopIn base maxVal n1 s'
      end
  end.

(** [strconv.ParseUint(s, base, bitSize)] for a base from 2 to 36
    given as such and a size from 1 to 64: no prefix and no underscore
    is read. *)
Definition strconv_ParseUint (s : string) (base bitSize : Z)
    : Z * option error :=
  match s with
  | EmptyString => (0, Some ErrSyntax)
  | _ => parseUintLoopIn base (2 ^ bitSize - 1) 0 s
  end.

(** The error of [Init]: "could not parse socket_mode: " and the text
    of the error of the parser. *)
Inductive InitError : Type :=
  | ErrSocketMode (cause : error).

Definition set_mode (x : Z) (p : PowerdnsRecursor) : PowerdnsRecursor :=
  {| UnixSockets := UnixSockets p; SocketDir := SocketDir p;
     SocketMode := SocketMode p;
     NewControlProtocol := NewControlProtocol p; mode := x |}.

(** [Init]: the plugin as the call leaves it, and the error. *)
Definition Init (p : PowerdnsRecursor)
    : PowerdnsRecursor * option InitError :=
  if negb (String.eqb (SocketMode p) "") then
    let '(mode, err) := strconv_ParseUint (SocketMode p) 8 32 in
    match err with
    | Some e => (p, Some (ErrSocketMode e))
    | None => (set_mode (uint32 mode) p, None)
    end
  else (p, None).

(** Octal numerals: the bytes "0" to "7", and the number a string of
    them writes after the digits that gave [n]. *)
Definition octal_digit (c : ascii) : bool :=
  let n := Z.of_N (N_of_ascii c) in (48 <=? n) && (n <=? 55).

Fixpoint all_octal (s : string) : bool :=
  match s with
  | EmptyString => true
  | String c s' => octal_digit c && all_octal s'
  end.

Fixpoint octal_from (n : Z) (s : string) : Z :=
  match s with
  | EmptyString => n
  | String c s' => octal_from (n * 8 + (Z.of_N (N_of_ascii c) - 48)) s'
  end.

Definition octal_value (s : string) : Z := octal_from 0 s.

(** A world where the chmod to come is refused. *)
Definition world_chmod_refused : World :=
  set_chmod_src [Some (OSError "operation not permitted")]
    (world_with [DialOk (socket_with [two_metrics])]).

(** Closed goals: evaluate each side of each conjunct. *)
Ltac evaluate :=
  cbv zeta;
  repeat match goal with |- _ /\ _ => split end;
  vm_compute; reflexivity.

Example parseResponse_two :
  parseResponse (unlines ["a" +:+ String TAB "1"; "b" +:+ String TAB "2"])
  = <["b" := 2]> (<["a" := 1]> ∅).
Proof. vm_compute. reflexivity. Qed.

(** ** Facts about [Split] *)

Lemma append_nil (b : string) : EmptyString +:+ b = b.
Proof. reflexivity. Qed.

Lemma append_cons (c : ascii) (a b : string) :
  String c a +:+ b = String c (a +:+ b).
Proof. reflexivity. Qed.

Lemma append_assoc (a b c : string) : (a +:+ b) +:+ c = a +:+ (b +:+ c).
Proof.
  induction a as [|x a IH]; [reflexivity |].
  now rewrite !append_cons, IH.
Qed.

Lemma Split_nonempty (s : string) (sep : ascii) : Split s sep <> [].
Proof.
  destruct s as [|c s]; simpl; [discriminate |].
  destruct (Ascii.eqb c sep); [discriminate |].
  destruct (Split s sep); discriminate.
Qed.

Lemma Split_app_sep (a b : string) (sep : ascii) :
  Split (a +:+ String sep b) sep = (Split a sep ++ Split b sep)%list.
Proof.
  induction a as [|c a IH]; [rewrite append_nil | rewrite append_cons]; simpl.
  - now rewrite Ascii.eqb_refl.
  - destruct (Ascii.eqb c sep).
    + now rewrite IH.
    + rewrite IH. pose proof (Split_nonempty a sep) as Hne.
      destruct (Split a sep) as [|x xs]; [congruence | reflexivity].
Qed.

Lemma Split_lacks (t : string) (sep : ascii) :
  lacks sep t = true -> Split t sep = [t].
Proof.
  induction t as [|c t IH]; simpl; [reflexivity |].
  intros H. apply andb_prop in H as [Hc Ht].
  apply negb_true_iff in Hc. rewrite Hc, (IH Ht). reflexivity.
Qed.

Lemma slice_to_app_last {A} (xs ys : list A) :
  ys <> [] ->
  slice_to (xs ++ ys) (len (xs ++ ys) - 1)
  = (xs ++ slice_to ys (len ys - 1))%list.
Proof.
  intros Hne. unfold slice_to, len.
  rewrite length_app.
  destruct ys as [|y ys]; [congruence |]. simpl length.
  replace (Z.to_nat (Z.of_nat (length xs + S (length ys)) - 1))
    with (length xs + length ys)%nat by lia.
  replace (Z.to_nat (Z.of_nat (S (length ys)) - 1)) with (length ys) by lia.
  rewrite firstn_app.
  rewrite firstn_all2 by lia.
  replace (length xs + length ys - length xs)%nat with (length ys) by lia.
  reflexivity.
Qed.

Lemma loop_lines_line (l rest : string) :
  loop_lines (l +:+ String NL rest)
  = (Split l NL ++ loop_lines rest)%list.
Proof.
  unfold loop_lines. cbv zeta. rewrite Split_app_sep.
  apply slice_to_app_last, Split_nonempty.
Qed.

Lemma loop_lines_lacks (t : string) : lacks NL t = true -> loop_lines t = [].
Proof.
  intros H. unfold loop_lines. cbv zeta. now rewrite (Split_lacks _ _ H).
Qed.

Lemma loop_lines_unlines (ls : list string) (rest : string) :
  loop_lines (unlines ls +:+ rest)
  = (flat_map (fun l => Split l NL) ls ++ loop_lines rest)%list.
Proof.
  induction ls as [|l ls IH]; simpl; [reflexivity |].
  rewrite append_assoc, append_cons, loop_lines_line, IH.
  now rewrite app_assoc.
Qed.

Lemma parseResponse_fold (metrics : string) :
  parseResponse metrics = fold_left parseLine (loop_lines metrics) ∅.
Proof. reflexivity. Qed.

(** ** Facts about [ParseInt] *)

Lemma digit_of_range (c : ascii) (d : Z) : digit_of c = Some d -> 0 <= d <= 9.
Proof.
  unfold digit_of. cbv zeta.
  destruct (48 <=? Z.of_N (N_of_ascii c)) eqn:Ha;
    destruct (Z.of_N (N_of_ascii c) <=? 57) eqn:Hb; simpl; try discriminate.
  intros [= <-]. lia.
Qed.

Lemma parseUintLoop_nonneg (s : string) :
  forall n, 0 <= n -> 0 <= fst (parseUintLoop n s).
Proof.
  induction s as [|c s IH]; intros n Hn; simpl; [exact Hn |].
  destruct (digit_of c) as [d|] eqn:Hd; simpl; [| lia].
  apply digit_of_range in Hd.
  destruct (_ <=? n); simpl; [lia |].
  destruct (_ <? n * 10 + d); simpl; [lia |].
  apply IH. lia.
Qed.

Lemma parseUintLoop_range_value (s : string) :
  forall n e, snd (parseUintLoop n s) = Some e -> e = ErrRange ->
              fst (parseUintLoop n s) = 2 ^ 64 - 1.
Proof.
  induction s as [|c s IH]; intros n e; simpl; [discriminate |].
  destruct (digit_of c) as [d|]; simpl; [| intros [= <-]; discriminate].
  destruct (_ <=? n); simpl; [reflexivity |].
  destruct (_ <? n * 10 + d); simpl; [reflexivity |].
  apply IH.
Qed.

Lemma parseUintLoop_ok_lacks (c : ascii) (s : string) :
  digit_of c = None ->
  forall n, snd (parseUintLoop n s) = None -> lacks c s = true.
Proof.
  intros Hc. induction s as [|a s IH]; intros n; simpl; [reflexivity |].
  destruct (digit_of a) as [d|] eqn:Hd; simpl; [| discriminate].
  destruct (_ <=? n); simpl; [discriminate |].
  destruct (_ <? n * 10 + d); simpl; [discriminate |].
  intros H. rewrite (IH _ H), andb_true_r.
  apply negb_true_iff, Ascii.eqb_neq. congruence.
Qed.

Lemma ParseUint_nonneg (s : string) : 0 <= fst (ParseUint s).
Proof.
  destruct s as [|c s]; [simpl; lia |].
  apply (parseUintLoop_nonneg (String c s)). lia.
Qed.

Lemma ParseUint_range_value (s : string) :
  snd (ParseUint s) = Some ErrRange -> fst (ParseUint s) = 2 ^ 64 - 1.
Proof.
  destruct s as [|c s]; [discriminate |].
  intros H. exact (parseUintLoop_range_value (String c s) 0 _ H eq_refl).
Qed.

Lemma parseUintLoop_errors (s : string) :
  forall n, snd (parseUintLoop n s) = None
            \/ snd (parseUintLoop n s) = Some ErrSyntax
            \/ snd (parseUintLoop n s) = Some ErrRange.
Proof.
  induction s as [|c s IH]; intros n; simpl; [auto |].
  destruct (digit_of c) as [d|]; simpl; [| auto].
  destruct (_ <=? n); simpl; [auto |].
  destruct (_ <? n * 10 + d); simpl; [auto |].
  apply IH.
Qed.

Lemma ParseUint_errors (s : string) :
  snd (ParseUint s) = None
  \/ snd (ParseUint s) = Some ErrSyntax
  \/ snd (ParseUint s) = Some ErrRange.
Proof.
  destruct s as [|c s]; [simpl; auto |].
  apply (parseUintLoop_errors (String c s)).
Qed.

Lemma ParseUint_ok_loop (s : string) :
  snd (ParseUint s) = None -> snd (parseUintLoop 0 s) = None.
Proof. destruct s; [discriminate | auto]. Qed.

(** What a successful [ParseInt] says about its argument: an optional
    sign followed by digits that [parseUintLoop] accepts, and a value
    in the signed 64-bit range. *)
Lemma ParseInt_ok (s : string) (v : Z) :
  ParseInt s = (v, None) ->
  - 2 ^ 63 <= v < 2 ^ 63
  /\ exists c0 s1, s = String c0 s1
     /\ snd (parseUintLoop 0 (if Ascii.eqb c0 "+" || Ascii.eqb c0 "-"
                              then s1 else s)) = None.
Proof.
  destruct s as [|c0 s1]; [discriminate |].
  unfold ParseInt.
  set (neg := Ascii.eqb c0 "-").
  set (s' := if Ascii.eqb c0 "+" || neg then s1 else String c0 s1).
  cbv zeta.
  pose proof (ParseUint_nonneg s') as Hnn.
  pose proof (ParseUint_range_value s') as Hrv.
  pose proof (ParseUint_ok_loop s') as Hok.
  pose proof (ParseUint_errors s') as Herr.
  destruct (ParseUint s') as [un oe].
  simpl in Hnn, Hrv, Hok, Herr.
  assert (Hbody :
    (if negb neg && (2 ^ 63 <=? un) then (2 ^ 63 - 1, Some ErrRange)
     else if neg && (2 ^ 63 <? un) then (- 2 ^ 63, Some ErrRange)
     else (if neg then - un else un, None)) = (v, None) ->
    oe = None \/ oe = Some ErrRange ->
    - 2 ^ 63 <= v < 2 ^ 63 /\ oe = None).
  { intros H Hoe.
    destruct neg; simpl in H.
    - destruct (2 ^ 63 <? un) eqn:Hlt; [discriminate |].
      injection H as <-. apply Z.ltb_ge in Hlt. split; [lia |].
      destruct Hoe as [-> | ->]; [reflexivity |].
      specialize (Hrv eq_refl). lia.
    - destruct (2 ^ 63 <=? un) eqn:Hle; [discriminate |].
      injection H as <-. apply Z.leb_gt in Hle. split; [lia |].
      destruct Hoe as [-> | ->]; [reflexivity |].
      specialize (Hrv eq_refl). lia. }
  intros H.
  assert (Hres : - 2 ^ 63 <= v < 2 ^ 63 /\ oe = None).
  { destruct Herr as [-> | [-> | ->]]; [| discriminate H |];
      apply Hbody; auto. }
  destruct Hres as [Hv ->]. split; [exact Hv |].
  exists c0, s1. split; [reflexivity |]. apply Hok. reflexivity.
Qed.

Lemma ParseInt_ok_lacks (c : ascii) (s : string) :
  digit_of c = None -> c <> "+"%char -> c <> "-"%char ->
  snd (ParseInt s) = None -> lacks c s = true.
Proof.
  intros Hd Hp Hm H.
  destruct (ParseInt s) as [v oe] eqn:HP. simpl in H. subst oe.
  apply ParseInt_ok in HP as [_ (c0 & s1 & -> & Hloop)].
  destruct (Ascii.eqb c0 "+" || Ascii.eqb c0 "-") eqn:Hsign.
  - simpl. rewrite (parseUintLoop_ok_lacks c s1 Hd 0 Hloop), andb_true_r.
    apply negb_true_iff, Ascii.eqb_neq.
    apply orb_true_iff in Hsign as [E | E]; apply Ascii.eqb_eq in E; congruence.
  - exact (parseUintLoop_ok_lacks c _ Hd 0 Hloop).
Qed.

(** ** The loop body *)

Lemma lacks_app (c : ascii) (a b : string) :
  lacks c (a +:+ b) = lacks c a && lacks c b.
Proof.
  induction a as [|x a IH]; [reflexivity |].
  rewrite append_cons. simpl. now rewrite IH, andb_assoc.
Qed.

Lemma parseLine_valid (m : gmap string Z) (line k : string) (v : Z) :
  valid_line line k v -> parseLine m line = <[k := v]> m.
Proof.
  intros (Hlen & Hk & Hv). unfold parseLine. cbv zeta.
  destruct (len (Split line TAB) <? 2) eqn:E; [apply Z.ltb_lt in E; lia |].
  now rewrite Hv, Hk.
Qed.

Lemma parseLine_skip (m : gmap string Z) (line : string) :
  len (Split line TAB) < 2
  \/ snd (ParseInt (nth 1 (Split line TAB) EmptyString)) <> None ->
  parseLine m line = m.
Proof.
  intros H. unfold parseLine. cbv zeta.
  destruct (len (Split line TAB) <? 2) eqn:E; [reflexivity |].
  apply Z.ltb_ge in E. destruct H as [H | H]; [lia |].
  destruct (ParseInt _) as [i [e|]]; [reflexivity | now elim H].
Qed.

Lemma parseLine_other (m : gmap string Z) (line k : string) :
  (forall v, ~ valid_line line k v) -> parseLine m line !! k = m !! k.
Proof.
  intros H. unfold parseLine. cbv zeta.
  destruct (len (Split line TAB) <? 2) eqn:E; [reflexivity |].
  apply Z.ltb_ge in E.
  destruct (ParseInt _) as [i [e|]] eqn:HP; [reflexivity |].
  apply lookup_insert_ne. intros Hk. apply (H i). now repeat split.
Qed.

Lemma fold_parseLine_other (ls : list string) (k : string) :
  (forall l v, In l ls -> ~ valid_line l k v) ->
  forall m : gmap string Z, fold_left parseLine ls m !! k = m !! k.
Proof.
  induction ls as [|l ls IH]; intros H m; simpl; [reflexivity |].
  rewrite IH by (intros l' v' Hin; apply H; now right).
  apply parseLine_other. intros v. apply H. now left.
Qed.

Lemma flat_map_Split_lacks (ls : list string) :
  Forall (fun l => lacks NL l = true) ls ->
  flat_map (fun l => Split l NL) ls = ls.
Proof.
  induction 1 as [|l ls Hl _ IH]; simpl; [reflexivity |].
  now rewrite (Split_lacks _ _ Hl), IH.
Qed.

(** [C10] Whatever follows the last line break of the input is ignored
    by the decoder, empty or not: a text decodes like the text cut
    after its last line break, and a text with no line break at all
    decodes to the empty mapping. *)
Theorem parseResponse_drops_last_segment (body t : string) :
  lacks NL t = true ->
  parseResponse (body +:+ String NL t)
  = parseResponse (body +:+ String NL EmptyString)
  /\ parseResponse t = ∅.
Proof.
  intros Ht. rewrite !parseResponse_fold, !loop_lines_line.
  rewrite !loop_lines_lacks by (exact Ht || reflexivity).
  split; reflexivity.
Qed.

Lemma parseResponse_drops_last_segment_witness :
  lacks NL ("a" +:+ String TAB "1") = true
  /\ (parseResponse (EmptyString +:+ String NL ("a" +:+ String TAB "1"))
      = parseResponse (EmptyString +:+ String NL EmptyString)
      /\ parseResponse ("a" +:+ String TAB "1") = ∅).
Proof.
  split; [reflexivity |].
  apply (parseResponse_drops_last_segment EmptyString ("a" +:+ String TAB "1")).
  reflexivity.
Defined.

(** A pair with no line break after it is dropped; with one, it is kept. *)
Example parseResponse_unterminated :
  parseResponse ("a" +:+ String TAB "1") = ∅
  /\ parseResponse ("a" +:+ String TAB "1" +:+ String NL EmptyString)
     = {["a" := 1]}.
Proof. evaluate. Qed.

(** A line with fewer than two tab-separated fields, or whose second
    field [ParseInt] rejects, changes nothing: the text decodes like
    the text without that line, whatever comes before and after. *)
Lemma parseResponse_without_line
    (before : list string) (line rest : string) :
  lacks NL line = true ->
  len (Split line TAB) < 2
  \/ snd (ParseInt (nth 1 (Split line TAB) EmptyString)) <> None ->
  parseResponse (unlines before +:+ line +:+ String NL rest)
  = parseResponse (unlines before +:+ rest).
Proof.
  intros Hnl Hbad.
  rewrite !parseResponse_fold, !loop_lines_unlines, loop_lines_line.
  rewrite (Split_lacks _ _ Hnl), !fold_left_app. simpl.
  now rewrite parseLine_skip.
Qed.

(** The loop over lines of which some are stored and the others are
    skipped: the skipped ones leave the mapping as it is, the stored
    ones are inserted in the order of the lines. *)
Lemma fold_parseLine_outcomes
    (lines : list string) (outcomes : list (option (string * Z))) :
  Forall2 (fun l o =>
             lacks NL l = true
             /\ match o with
                | Some e => valid_line l e.1 e.2
                | None =>
                    len (Split l TAB) < 2
                    \/ snd (ParseInt (nth 1 (Split l TAB) EmptyString))
                       <> None
                end) lines outcomes ->
  forall acc : list (string * Z),
    fold_left parseLine lines (list_to_map acc)
    = list_to_map (rev (omap id outcomes) ++ acc).
Proof.
  induction 1 as [| l o lines outcomes [_ Ho] _ IH]; intros acc;
    [reflexivity |].
  destruct o as [e |]; cbn [fold_left].
  - rewrite (parseLine_valid _ _ _ _ Ho).
    change (<[e.1 := e.2]> (list_to_map acc) : gmap string Z)
      with (list_to_map (e :: acc) : gmap string Z).
    rewrite IH.
    change (omap id (Some e :: outcomes)) with (e :: omap id outcomes).
    cbn [rev]. now rewrite <- app_assoc.
  - rewrite (parseLine_skip _ _ Ho). apply IH.
Qed.

(** [C4] A malformed line is skipped and every other line is still
    processed.  Take any text cut into its lines, each of them either
    malformed (fewer than two tab-separated fields, or a second field
    that [ParseInt] rejects) or stored (at least two fields, the
    second an integer), with anything free of line breaks after the
    last line break.  Its decoding is the mapping built from the
    stored lines alone, in their order: the malformed lines add
    nothing, remove nothing and stop nothing, wherever and however
    many they are. *)
Theorem parseResponse_skips_malformed_line
    (lines : list string) (outcomes : list (option (string * Z)))
    (tail : string) :
  Forall2 (fun l o =>
             lacks NL l = true
             /\ match o with
                | Some e => valid_line l e.1 e.2
                | None =>
                    len (Split l TAB) < 2
                    \/ snd (ParseInt (nth 1 (Split l TAB) EmptyString))
                       <> None
                end) lines outcomes ->
  lacks NL tail = true ->
  parseResponse (unlines lines +:+ tail)
  = list_to_map (rev (omap id outcomes)).
Proof.
  intros Hlines Htail.
  rewrite parseResponse_fold, loop_lines_unlines.
  rewrite (loop_lines_lacks _ Htail), app_nil_r.
  rewrite flat_map_Split_lacks.
  - change (∅ : gmap string Z) with (list_to_map [] : gmap string Z).
    rewrite (fold_parseLine_outcomes _ _ Hlines). now rewrite app_nil_r.
  - clear Htail. induction Hlines as [| l o ls os [Hl _] _ IH];
      constructor; assumption.
Qed.

Lemma parseResponse_skips_malformed_line_witness :
  parseResponse
    (unlines ["a" +:+ String TAB "NaN"; "onlykey"; "b" +:+ String TAB "2"]
     +:+ EmptyString)
  = {["b" := 2]}.
Proof.
  change ({["b" := 2]} : gmap string Z)
    with (list_to_map (rev (omap id [None; None; Some ("b", 2)]))
          : gmap string Z).
  apply (parseResponse_skips_malformed_line
           ["a" +:+ String TAB "NaN"; "onlykey"; "b" +:+ String TAB "2"]
           [None; None; Some ("b", 2)] EmptyString).
  - constructor; [| constructor; [| constructor; [| constructor]]].
    + split; [reflexivity |]. right. vm_compute. discriminate.
    + split; [reflexivity |]. left. vm_compute. reflexivity.
    + split; [reflexivity |].
      split; [vm_compute; discriminate |].
      split; vm_compute; reflexivity.
  - reflexivity.
Defined.

(** The two examples of the specification. *)
Example parseResponse_NaN :
  parseResponse (unlines ["a" +:+ String TAB "NaN"; "b" +:+ String TAB "2"])
  = {["b" := 2]}.
Proof. vm_compute. reflexivity. Qed.

Example parseResponse_onlykey : parseResponse (unlines ["onlykey"]) = ∅.
Proof. vm_compute. reflexivity. Qed.

(** [C5] Last write wins: when a valid line names [k] with value [v]
    and no valid line after it names [k], the decoded mapping has [v]
    at [k], whatever earlier lines stored there. *)
Theorem parseResponse_last_write_wins
    (before later : list string) (line tail k : string) (v : Z) :
  lacks NL line = true ->
  Forall (fun l => lacks NL l = true) later ->
  lacks NL tail = true ->
  valid_line line k v ->
  (forall l v', In l later -> ~ valid_line l k v') ->
  parseResponse (unlines before +:+ line +:+ String NL (unlines later +:+ tail))
  !! k = Some v.
Proof.
  intros Hnl Hlater Htail Hvalid Hnone.
  rewrite parseResponse_fold, loop_lines_unlines, loop_lines_line.
  rewrite (Split_lacks _ _ Hnl), loop_lines_unlines.
  rewrite (flat_map_Split_lacks _ Hlater), (loop_lines_lacks _ Htail).
  rewrite app_nil_r, fold_left_app. simpl.
  rewrite (fold_parseLine_other _ _ Hnone).
  rewrite (parseLine_valid _ _ _ _ Hvalid).
  apply lookup_insert_eq.
Qed.

Lemma parseResponse_last_write_wins_witness :
  parseResponse (unlines ["a" +:+ String TAB "1"; "b" +:+ String TAB "7"]
                 +:+ ("a" +:+ String TAB "2")
                 +:+ String NL (unlines ["c" +:+ String TAB "3"] +:+ EmptyString))
  !! "a" = Some 2.
Proof.
  apply (parseResponse_last_write_wins
           ["a" +:+ String TAB "1"; "b" +:+ String TAB "7"]
           ["c" +:+ String TAB "3"] ("a" +:+ String TAB "2") EmptyString "a" 2).
  - reflexivity.
  - repeat constructor.
  - reflexivity.
  - repeat split. vm_compute. discriminate.
  - intros l v' [<- | []] (_ & Hk & _). vm_compute in Hk. discriminate.
Defined.

(** ** Well-formed responses *)

Lemma fold_insert_list_to_map (l acc : list (string * Z)) :
  fold_left (fun (m : gmap string Z) e => <[e.1 := e.2]> m) l
            (list_to_map acc)
  = list_to_map (rev l ++ acc).
Proof.
  revert acc. induction l as [|[k v] l IH]; intros acc; simpl; [reflexivity |].
  rewrite <- app_assoc. simpl. rewrite <- IH. reflexivity.
Qed.

Lemma valid_line_entry (k vs : string) (v : Z) :
  lacks TAB k = true -> ParseInt vs = (v, None) ->
  valid_line (k +:+ String TAB vs) k v.
Proof.
  intros Hk Hv.
  assert (Hvs : lacks TAB vs = true).
  { apply ParseInt_ok_lacks; [reflexivity | discriminate | discriminate |].
    now rewrite Hv. }
  unfold valid_line.
  rewrite Split_app_sep, (Split_lacks _ _ Hk), (Split_lacks _ _ Hvs).
  simpl. repeat split; [unfold len; simpl; lia | exact Hv].
Qed.

Lemma loop_lines_response_of (entries : list (string * string)) :
  Forall (fun e => lacks NL e.1 = true /\ snd (ParseInt e.2) = None) entries ->
  loop_lines (response_of entries)
  = map (fun e => e.1 +:+ String TAB e.2) entries.
Proof.
  intros H. unfold response_of.
  rewrite <- (app_nil_r (map _ entries)) at 2.
  assert (E : forall s : string, s +:+ EmptyString = s).
  { induction s as [|c s IH]; [reflexivity | now rewrite append_cons, IH]. }
  rewrite <- (E (unlines _)), loop_lines_unlines.
  rewrite loop_lines_lacks by reflexivity.
  f_equal. apply flat_map_Split_lacks.
  rewrite List.Forall_forall in H. apply List.Forall_forall.
  intros l Hl. apply in_map_iff in Hl as ([k vs] & <- & Hin).
  destruct (H _ Hin) as [Hk Hv]. simpl in *. rewrite lacks_app. simpl.
  rewrite Hk. simpl. apply ParseInt_ok_lacks; auto; discriminate.
Qed.

Lemma fold_parseLine_entries (entries : list (string * string)) :
  Forall (fun e => lacks TAB e.1 = true /\ snd (ParseInt e.2) = None) entries ->
  forall m : gmap string Z,
    fold_left parseLine (map (fun e => e.1 +:+ String TAB e.2) entries) m
    = fold_left (fun (m : gmap string Z) e => <[e.1 := e.2]> m)
                (map (fun e => (e.1, fst (ParseInt e.2))) entries) m.
Proof.
  induction 1 as [|[k vs] entries [Hk Hv] _ IH]; intros m; simpl;
    [reflexivity |].
  simpl in Hk, Hv. rewrite <- IH. f_equal.
  apply parseLine_valid, valid_line_entry; [exact Hk |].
  destruct (ParseInt vs) as [v oe]. simpl in *. now subst oe.
Qed.

(** [C3] A well-formed response lists (name, value) pairs, one per
    line, as name, tab, decimal value, line break, the names free of
    tabs and line breaks and the values accepted by [ParseInt].  Its
    decoding is the mapping built from the listed pairs in order
    ([list_to_map] keeps the first binding of a key, hence the [rev]);
    when the names are distinct, it holds exactly the listed pairs;
    and every value is a signed 64-bit integer. *)
Theorem parseResponse_well_formed (entries : list (string * string)) :
  Forall (fun e => lacks TAB e.1 = true /\ lacks NL e.1 = true
                   /\ snd (ParseInt e.2) = None) entries ->
  let pairs := map (fun e => (e.1, fst (ParseInt e.2))) entries in
  parseResponse (response_of entries) = list_to_map (rev pairs)
  /\ (NoDup (map fst entries) ->
      forall k v, parseResponse (response_of entries) !! k = Some v
                  <-> In (k, v) pairs)
  /\ (forall k v, parseResponse (response_of entries) !! k = Some v ->
                  - 2 ^ 63 <= v < 2 ^ 63).
Proof.
  intros Hwf pairs.
  assert (Heq : parseResponse (response_of entries) = list_to_map (rev pairs)).
  { rewrite parseResponse_fold, loop_lines_response_of.
    - rewrite fold_parseLine_entries.
      + change (∅ : gmap string Z) with (list_to_map [] : gmap string Z).
        rewrite fold_insert_list_to_map. now rewrite app_nil_r.
      + eapply List.Forall_impl; [| exact Hwf]. intros e (? & ? & ?). auto.
    - eapply List.Forall_impl; [| exact Hwf]. intros e (? & ? & ?). auto. }
  split; [exact Heq |]. rewrite Heq. split.
  - intros Hnd k v.
    rewrite <- elem_of_list_to_map.
    + rewrite list_elem_of_In. symmetry. apply in_rev.
    + change (NoDup (map fst (rev pairs))).
      rewrite map_rev. apply NoDup_ListNoDup, List.NoDup_rev. unfold pairs.
      rewrite map_map. simpl. apply NoDup_ListNoDup. exact Hnd.
  - intros k v Hkv. apply elem_of_list_to_map_2 in Hkv.
    apply list_elem_of_In, in_rev, in_map_iff in Hkv
      as ([k' vs] & [= <- <-] & Hin).
    rewrite List.Forall_forall in Hwf. destruct (Hwf _ Hin) as (_ & _ & Hv).
    simpl in *. destruct (ParseInt vs) as [v oe] eqn:HP. simpl in *. subst oe.
    now apply ParseInt_ok in HP as [Hr _].
Qed.

Lemma parseResponse_well_formed_witness :
  parseResponse (response_of [("a", "1"); ("b", "2")])
  = list_to_map (rev [("a", 1); ("b", 2)])
  /\ (NoDup (map fst [("a", "1"); ("b", "2")]) ->
      forall k v,
        parseResponse (response_of [("a", "1"); ("b", "2")]) !! k = Some v
        <-> In (k, v) [("a", 1); ("b", 2)])
  /\ (forall k v,
        parseResponse (response_of [("a", "1"); ("b", "2")]) !! k = Some v ->
        - 2 ^ 63 <= v < 2 ^ 63).
Proof.
  apply (parseResponse_well_formed [("a", "1"); ("b", "2")]).
  repeat constructor.
Defined.

(** ** The native integer codec *)

Lemma getEndianness_native (plat : Platform) :
  getEndianness plat = nativeOrder plat.
Proof.
  unfold getEndianness, store_uint16.
  destruct (nativeOrder plat); reflexivity.
Qed.

(** The byte of [v] at bit [k], put back in place, is [v] under a mask. *)
Lemma byte_in_place (v k : Z) :
  0 <= k ->
  Z.shiftl (byte_of (Z.shiftr v k)) k = Z.land v (Z.shiftl 255 k).
Proof.
  intros Hk. unfold byte_of. apply Z.bits_inj'. intros i Hi.
  rewrite Z.land_spec, !Z.shiftl_spec by lia.
  destruct (Z.ltb_spec i k) as [Hlt | Hge].
  - rewrite (Z.testbit_neg_r (Z.land (Z.shiftr v k) 255) (i - k)) by lia.
    rewrite (Z.testbit_neg_r 255 (i - k)) by lia. now rewrite andb_false_r.
  - rewrite Z.land_spec, Z.shiftr_spec by lia.
    now replace (i - k + k) with i by lia.
Qed.

Lemma byte_in_place_0 (v : Z) : byte_of v = Z.land v 255.
Proof. reflexivity. Qed.

Ltac mask_bytes :=
  rewrite ?byte_in_place by lia;
  rewrite ?byte_in_place_0;
  rewrite <- ?Z.land_lor_distr_r.

Lemma Uint32_PutUint32 (order : ByteOrder) (b : list Z) (v : Z) :
  0 <= v < 2 ^ 32 -> Uint32 order (PutUint32 order b v) = v.
Proof.
  intros Hv. unfold Uint32, PutUint32, at_.
  destruct order; cbn [nth app]; mask_bytes;
    change (Z.land v (Z.ones 32) = v);
    rewrite Z.land_ones by lia; apply Z.mod_small; exact Hv.
Qed.

Lemma Uint64_PutUint64 (order : ByteOrder) (b : list Z) (v : Z) :
  0 <= v < 2 ^ 64 -> Uint64 order (PutUint64 order b v) = v.
Proof.
  intros Hv. unfold Uint64, PutUint64, at_.
  destruct order; cbn [nth app]; mask_bytes;
    change (Z.land v (Z.ones 64) = v);
    rewrite Z.land_ones by lia; apply Z.mod_small; exact Hv.
Qed.

Lemma byte_of_idem (x : Z) : byte_of (byte_of x) = byte_of x.
Proof.
  unfold byte_of. rewrite <- Z.land_assoc. reflexivity.
Qed.

Lemma received_PutUint32 (order : ByteOrder) (v : Z) :
  received 4 (PutUint32 order (zeros 4) v) = PutUint32 order (zeros 4) v.
Proof.
  unfold received, PutUint32.
  destruct order; cbn [zeros Z.to_nat Pos.to_nat Pos.iter_op Nat.add repeat
                       skipn app firstn map];
    now rewrite !byte_of_idem.
Qed.

Lemma received_PutUint64 (order : ByteOrder) (v : Z) :
  received 8 (PutUint64 order (zeros 8) v) = PutUint64 order (zeros 8) v.
Proof.
  unfold received, PutUint64.
  destruct order; cbn [zeros Z.to_nat Pos.to_nat Pos.iter_op Nat.add repeat
                       skipn app firstn map];
    now rewrite !byte_of_idem.
Qed.

Lemma len_PutUint32 (order : ByteOrder) (v : Z) :
  len (PutUint32 order (zeros 4) v) = 4.
Proof. destruct order; reflexivity. Qed.

Lemma len_PutUint64 (order : ByteOrder) (v : Z) :
  len (PutUint64 order (zeros 8) v) = 8.
Proof. destruct order; reflexivity. Qed.

Lemma refill_PutUint32 (order : ByteOrder) (v : Z) :
  PutUint32 order (zeros 4) v
    ++ skipn (length (PutUint32 order (zeros 4) v)) (zeros 4)
  = PutUint32 order (zeros 4) v.
Proof. destruct order; reflexivity. Qed.

Lemma refill_PutUint64 (order : ByteOrder) (v : Z) :
  PutUint64 order (zeros 8) v
    ++ skipn (length (PutUint64 order (zeros 8) v)) (zeros 8)
  = PutUint64 order (zeros 8) v.
Proof. destruct order; reflexivity. Qed.

(** [C1] Round trip of the native integer codec.  On a platform whose
    [uint] has 32 or 64 bits, of either byte order, and for every [n]
    that fits a [uint]: [writeNativeUIntToConn] puts 4 or 8 bytes on
    the connection, and [readNativeUIntFromConn], on any connection
    that delivers those bytes, returns [n]. *)
Theorem native_uint_round_trip
    (plat : Platform) (n : Z)
    (wconn : nat) (ww : World) (ws : Socket) (wrest : list WriteAnswer) :
  IntSize plat = 32 \/ IntSize plat = 64 ->
  0 <= n < 2 ^ IntSize plat ->
  socks ww !! wconn = Some ws ->
  write_answers ws = WriteOk :: wrest ->
  exists (payload : list Z) (ww' : World),
    writeNativeUIntToConn plat wconn n ww
    = (Ret (uintSizeInBytes plat, None), ww')
    /\ sent ww' = sent ww ++ [payload]
    /\ len payload = uintSizeInBytes plat
    /\ forall (rconn : nat) (rw : World) (rs : Socket)
              (rrest : list ReadAnswer),
        socks rw !! rconn = Some rs ->
        read_answers rs = {| rd_data := payload; rd_err := None |} :: rrest ->
        fst (readNativeUIntFromConn plat rconn rw) = Ret (n, None).
Proof.
  intros Hsize Hn Hws Hwa.
  unfold writeNativeUIntToConn, readNativeUIntFromConn, uintSizeInBytes, uint.
  rewrite getEndianness_native.
  destruct Hsize as [Hs | Hs]; rewrite Hs in *;
    change (Z.quot 32 8) with 4; change (Z.quot 64 8) with 8;
    cbn [Z.eqb Pos.eqb negb]; unfold conn_Write; rewrite Hws, Hwa.
  - unfold uint32. rewrite (Z.mod_small n) by exact Hn.
    rewrite len_PutUint32.
    eexists; eexists. split; [reflexivity |].
    split; [reflexivity |]. split; [apply len_PutUint32 |].
    intros rconn rw rs rrest Hrs Hra.
    unfold bind, conn_Read. rewrite Hrs, Hra. cbn [rd_data rd_err].
    change (length (zeros 4)) with 4%nat.
    rewrite received_PutUint32.
    rewrite len_PutUint32, refill_PutUint32. cbn [Z.eqb Pos.eqb negb].
    rewrite Uint32_PutUint32 by exact Hn.
    rewrite Z.mod_small by exact Hn. reflexivity.
  - unfold uint64. rewrite (Z.mod_small n) by exact Hn.
    rewrite len_PutUint64.
    eexists; eexists. split; [reflexivity |].
    split; [reflexivity |]. split; [apply len_PutUint64 |].
    intros rconn rw rs rrest Hrs Hra.
    unfold bind, conn_Read. rewrite Hrs, Hra. cbn [rd_data rd_err].
    change (length (zeros 8)) with 8%nat.
    rewrite received_PutUint64.
    rewrite len_PutUint64, refill_PutUint64. cbn [Z.eqb Pos.eqb negb].
    rewrite Uint64_PutUint64 by exact Hn.
    rewrite Z.mod_small by exact Hn. reflexivity.
Qed.

Lemma native_uint_round_trip_witness :
  exists (payload : list Z) (ww' : World),
    writeNativeUIntToConn linux_s390x 3 7 (connected (socket_with []))
    = (Ret (uintSizeInBytes linux_s390x, None), ww')
    /\ sent ww' = sent (connected (socket_with [])) ++ [payload]
    /\ len payload = uintSizeInBytes linux_s390x
    /\ forall (rconn : nat) (rw : World) (rs : Socket)
              (rrest : list ReadAnswer),
        socks rw !! rconn = Some rs ->
        read_answers rs = {| rd_data := payload; rd_err := None |} :: rrest ->
        fst (readNativeUIntFromConn linux_s390x rconn rw) = Ret (7, None).
Proof.
  apply (native_uint_round_trip linux_s390x 7 3 (connected (socket_with []))
           (socket_with []) [WriteOk; WriteOk]).
  - right. reflexivity.
  - split; [lia | reflexivity].
  - reflexivity.
  - reflexivity.
Defined.

(** The four platforms, evaluated: the bytes written for 7 and for the
    largest value, and what reading them back gives. *)
Example native_uint_bytes :
  sent (snd (writeNativeUIntToConn linux_amd64 3 7 (connected (socket_with []))))
  = [[7; 0; 0; 0; 0; 0; 0; 0]]
  /\ sent (snd (writeNativeUIntToConn linux_s390x 3 7
                  (connected (socket_with []))))
     = [[0; 0; 0; 0; 0; 0; 0; 7]]
  /\ sent (snd (writeNativeUIntToConn linux_386 3 7
                  (connected (socket_with []))))
     = [[7; 0; 0; 0]]
  /\ sent (snd (writeNativeUIntToConn linux_mips 3 (2 ^ 32 - 2)
                  (connected (socket_with []))))
     = [[255; 255; 255; 254]]
  /\ fst (readNativeUIntFromConn linux_mips 3
            (connected (socket_with [[255; 255; 255; 254]])))
     = Ret (2 ^ 32 - 2, None)
  /\ fst (readNativeUIntFromConn linux_amd64 3
            (connected (socket_with [[7; 0; 0]])))
     = Ret (0, Some (ErrShortNativeUInt 3 8)).
Proof. evaluate. Qed.

(** ** Stepping through the drivers *)

Ltac world_simpl :=
  cbn [rand_src dial_src chmod_src files socks next_fd sent acc
       set_rand_src set_dial_src set_chmod_src set_files set_socks
       set_next_fd set_sent set_acc
       deadline_answer write_answers read_answers close_answer
       set_write_answers set_read_answers rd_data rd_err fst snd
       open_socket].

Create HintDb frames.

Section Frames.
Context {X : Type} (f : World -> X).

Lemma keeps_ret {A} (a : A) : keeps f (ret a).
Proof. intros w. reflexivity. Qed.

Lemma keeps_panic {A} (msg : string) : keeps f (@panic A msg).
Proof. intros w. reflexivity. Qed.

Lemma keeps_bind {A B} (m : M A) (k : A -> M B) :
  keeps f m -> (forall a, keeps f (k a)) -> keeps f (bind m k).
Proof.
  intros Hm Hk w. unfold bind. specialize (Hm w).
  destruct (m w) as [[a | msg] w1]; simpl in *; [| exact Hm].
  now rewrite Hk.
Qed.

Lemma keeps_defer {A B} (cleanup : M B) (body : M A) :
  keeps f cleanup -> keeps f body -> keeps f (defer cleanup body).
Proof.
  intros Hc Hb w. unfold defer. specialize (Hb w).
  destruct (body w) as [r w1]. specialize (Hc w1).
  destruct (cleanup w1) as [[b | msg] w2]; simpl in *; congruence.
Qed.
End Frames.

Lemma returns_ret {A} (a : A) : returns (ret a).
Proof. intros w. eexists _, _. reflexivity. Qed.

Lemma returns_bind {A B} (m : M A) (k : A -> M B) :
  returns m -> (forall a, returns (k a)) -> returns (bind m k).
Proof.
  intros Hm Hk w. unfold bind. destruct (Hm w) as (a & w1 & ->). apply Hk.
Qed.

Lemma returns_defer {A B} (cleanup : M B) (body : M A) :
  returns cleanup -> returns body -> returns (defer cleanup body).
Proof.
  intros Hc Hb w. unfold defer. destruct (Hb w) as (a & w1 & ->).
  destruct (Hc w1) as (b & w2 & ->). eexists _, _. reflexivity.
Qed.

Lemma records_ret {A} (a : A) : records (ret a).
Proof. intros w. exists []. simpl. now rewrite app_nil_r. Qed.

Lemma records_bind {A B} (m : M A) (k : A -> M B) :
  records m -> (forall a, records (k a)) -> records (bind m k).
Proof.
  intros Hm Hk w. unfold bind. destruct (Hm w) as (l1 & H1).
  destruct (m w) as [[a | msg] w1]; simpl in *; [| eauto].
  destruct (Hk a w1) as (l2 & H2). exists (l1 ++ l2).
  now rewrite H2, H1, app_assoc.
Qed.

Lemma records_defer {A B} (cleanup : M B) (body : M A) :
  records cleanup -> records body -> records (defer cleanup body).
Proof.
  intros Hc Hb w. unfold defer. destruct (Hb w) as (l1 & H1).
  destruct (body w) as [r w1]. destruct (Hc w1) as (l2 & H2).
  exists (l1 ++ l2).
  destruct (cleanup w1) as [[b | msg] w2]; simpl in *;
    now rewrite H2, H1, app_assoc.
Qed.

Lemma keeps_records {A} (m : M A) : keeps acc m -> records m.
Proof. intros H w. exists []. now rewrite H, app_nil_r. Qed.

(** The library calls, one by one. *)

Ltac prim :=
  intros w;
  repeat match goal with
         | |- context [match ?x with _ => _ end] => destruct x
         end;
  try (eexists _, _); reflexivity.

Lemma rand_Int63_returns : returns rand_Int63.
Proof. unfold rand_Int63. prim. Qed.
Lemma net_DialUnix_returns n l r : returns (net_DialUnix n l r).
Proof. unfold net_DialUnix, open_socket. prim. Qed.
Lemma os_Chmod_returns n m : returns (os_Chmod n m).
Proof. unfold os_Chmod. prim. Qed.
Lemma os_Remove_returns n : returns (os_Remove n).
Proof. unfold os_Remove. prim. Qed.
Lemma conn_SetDeadline_returns c : returns (conn_SetDeadline c).
Proof. unfold conn_SetDeadline. prim. Qed.
Lemma conn_Write_returns c b : returns (conn_Write c b).
Proof. unfold conn_Write. prim. Qed.
Lemma conn_Read_returns c b : returns (conn_Read c b).
Proof. unfold conn_Read. prim. Qed.
Lemma conn_Close_returns c : returns (conn_Close c).
Proof. unfold conn_Close. prim. Qed.
Lemma acc_AddFields_returns m f t : returns (acc_AddFields m f t).
Proof. unfold acc_AddFields. prim. Qed.
Lemma acc_AddError_returns e : returns (acc_AddError e).
Proof. unfold acc_AddError. prim. Qed.

#[local] Hint Resolve rand_Int63_returns net_DialUnix_returns os_Chmod_returns
  os_Remove_returns conn_SetDeadline_returns conn_Write_returns
  conn_Read_returns conn_Close_returns acc_AddFields_returns
  acc_AddError_returns : frames.

Lemma rand_Int63_keeps_acc : keeps acc rand_Int63.
Proof. unfold rand_Int63. prim. Qed.
Lemma net_DialUnix_keeps_acc n l r : keeps acc (net_DialUnix n l r).
Proof. unfold net_DialUnix, open_socket. prim. Qed.
Lemma os_Chmod_keeps_acc n m : keeps acc (os_Chmod n m).
Proof. unfold os_Chmod. prim. Qed.
Lemma os_Remove_keeps_acc n : keeps acc (os_Remove n).
Proof. unfold os_Remove. prim. Qed.
Lemma conn_SetDeadline_keeps_acc c : keeps acc (conn_SetDeadline c).
Proof. unfold conn_SetDeadline. prim. Qed.
Lemma conn_Write_keeps_acc c b : keeps acc (conn_Write c b).
Proof. unfold conn_Write. prim. Qed.
Lemma conn_Read_keeps_acc c b : keeps acc (conn_Read c b).
Proof. unfold conn_Read. prim. Qed.
Lemma conn_Close_keeps_acc c : keeps acc (conn_Close c).
Proof. unfold conn_Close. prim. Qed.
Lemma make_bytes_keeps_acc plat n : keeps acc (make_bytes plat n).
Proof. unfold make_bytes, ret, panic. prim. Qed.

Lemma acc_AddFields_records m f t : records (acc_AddFields m f t).
Proof. intros w. eexists. reflexivity. Qed.
Lemma acc_AddError_records e : records (acc_AddError e).
Proof. intros w. eexists. reflexivity. Qed.

#[local] Hint Resolve rand_Int63_keeps_acc net_DialUnix_keeps_acc
  os_Chmod_keeps_acc os_Remove_keeps_acc conn_SetDeadline_keeps_acc
  conn_Write_keeps_acc conn_Read_keeps_acc conn_Close_keeps_acc
  make_bytes_keeps_acc acc_AddFields_records acc_AddError_records
  keeps_records : frames.

Lemma os_Chmod_keeps_dials n m : keeps dial_src (os_Chmod n m).
Proof. unfold os_Chmod. prim. Qed.
Lemma os_Remove_keeps_dials n : keeps dial_src (os_Remove n).
Proof. unfold os_Remove. prim. Qed.
Lemma conn_SetDeadline_keeps_dials c : keeps dial_src (conn_SetDeadline c).
Proof. unfold conn_SetDeadline. prim. Qed.
Lemma conn_Write_keeps_dials c b : keeps dial_src (conn_Write c b).
Proof. unfold conn_Write. prim. Qed.
Lemma conn_Read_keeps_dials c b : keeps dial_src (conn_Read c b).
Proof. unfold conn_Read. prim. Qed.
Lemma conn_Close_keeps_dials c : keeps dial_src (conn_Close c).
Proof. unfold conn_Close. prim. Qed.
Lemma acc_AddFields_keeps_dials m f t : keeps dial_src (acc_AddFields m f t).
Proof. unfold acc_AddFields. prim. Qed.
Lemma acc_AddError_keeps_dials e : keeps dial_src (acc_AddError e).
Proof. unfold acc_AddError. prim. Qed.

#[local] Hint Resolve os_Chmod_keeps_dials os_Remove_keeps_dials
  conn_SetDeadline_keeps_dials conn_Write_keeps_dials conn_Read_keeps_dials
  conn_Close_keeps_dials acc_AddFields_keeps_dials acc_AddError_keeps_dials
  : frames.

Lemma conn_Read_keeps_sent c b : keeps sent (conn_Read c b).
Proof. unfold conn_Read. prim. Qed.
Lemma conn_Close_keeps_sent c : keeps sent (conn_Close c).
Proof. unfold conn_Close. prim. Qed.
Lemma os_Remove_keeps_sent n : keeps sent (os_Remove n).
Proof. unfold os_Remove. prim. Qed.
Lemma acc_AddFields_keeps_sent m f t : keeps sent (acc_AddFields m f t).
Proof. unfold acc_AddFields. prim. Qed.
Lemma make_bytes_keeps_sent plat n : keeps sent (make_bytes plat n).
Proof. unfold make_bytes, ret, panic. prim. Qed.

#[local] Hint Resolve conn_Read_keeps_sent conn_Close_keeps_sent
  os_Remove_keeps_sent acc_AddFields_keeps_sent make_bytes_keeps_sent : frames.

(** A computation built from calls that have the property has it:
    take the term apart along its binds, defers and branches. *)
Ltac frame :=
  repeat first
    [ apply keeps_ret | apply keeps_panic | apply returns_ret
    | apply records_ret
    | apply keeps_bind; [| intros ?]
    | apply returns_bind; [| intros ?]
    | apply records_bind; [| intros ?]
    | apply keeps_defer | apply returns_defer | apply records_defer
    | solve [auto with frames]
    | match goal with
      | |- keeps _ (match ?x with _ => _ end) => destruct x
      | |- returns (match ?x with _ => _ end) => destruct x
      | |- records (match ?x with _ => _ end) => destruct x
      end ].

Lemma readNativeUIntFromConn_keeps_sent plat c :
  keeps sent (readNativeUIntFromConn plat c).
Proof. unfold readNativeUIntFromConn. frame. Qed.

Lemma readNativeUIntFromConn_keeps_acc plat c :
  keeps acc (readNativeUIntFromConn plat c).
Proof. unfold readNativeUIntFromConn. frame. Qed.

#[local] Hint Resolve readNativeUIntFromConn_keeps_sent
  readNativeUIntFromConn_keeps_acc : frames.

Lemma os_Chmod_keeps_files n m : keeps files (os_Chmod n m).
Proof. unfold os_Chmod. prim. Qed.
Lemma conn_SetDeadline_keeps_files c : keeps files (conn_SetDeadline c).
Proof. unfold conn_SetDeadline. prim. Qed.
Lemma conn_Write_keeps_files c b : keeps files (conn_Write c b).
Proof. unfold conn_Write. prim. Qed.
Lemma conn_Read_keeps_files c b : keeps files (conn_Read c b).
Proof. unfold conn_Read. prim. Qed.
Lemma conn_Close_keeps_files c : keeps files (conn_Close c).
Proof. unfold conn_Close. prim. Qed.
Lemma acc_AddFields_keeps_files m f t : keeps files (acc_AddFields m f t).
Proof. unfold acc_AddFields. prim. Qed.

#[local] Hint Resolve os_Chmod_keeps_files conn_SetDeadline_keeps_files
  conn_Write_keeps_files conn_Read_keeps_files conn_Close_keeps_files
  acc_AddFields_keeps_files : frames.

(** ** The datagram driver *)

Lemma removed_absent (F : gset string) (r : string) : r ∉ (F ∖ {[r]}).
Proof. rewrite elem_of_difference, elem_of_singleton. tauto. Qed.

Lemma remove_absent (F : gset string) (r : string) :
  r ∉ F -> F = F ∖ {[r]}.
Proof.
  intros H. apply set_eq. intros x.
  rewrite elem_of_difference, elem_of_singleton.
  split; [| tauto]. intros Hx. split; [exact Hx |]. now intros ->.
Qed.

Lemma remove_added (F : gset string) (r : string) :
  ({[r]} ∪ F) ∖ {[r]} = F ∖ {[r]}.
Proof.
  apply set_eq. intros x.
  rewrite !elem_of_difference, elem_of_union, elem_of_singleton. tauto.
Qed.

Lemma ResolveUnixAddr_unixgram (address : string) :
  ResolveUnixAddr "unixgram" address
  = inl {| Name := address; Net := "unixgram" |}.
Proof. reflexivity. Qed.

Lemma bind_run {A B} (m : M A) (k : A -> M B) (w : World) :
  bind m k w
  = match m w with
    | (Ret a, w') => k a w'
    | (Panic msg, w') => (Panic msg, w')
    end.
Proof. reflexivity. Qed.

Section LegacyFacts.

Variable filepath_Join : list string -> string.

(** [gatherServer], taken apart at its first [defer]: the random
    number, then the rest of the body under the deferred removal. *)
Lemma gatherServer_unfold (p : PowerdnsRecursor) (address : string)
    (newProtocol : bool) (w : World) :
  exists body : M (option error),
    gatherServer filepath_Join p address newProtocol w
    = defer (os_Remove (recvSocket_of filepath_Join p (hd 0 (rand_src w))))
            body (snd (rand_Int63 w))
    /\ (forall w1, files (snd (body w1)) = files w1
                   \/ files (snd (body w1))
                      = {[recvSocket_of filepath_Join p (hd 0 (rand_src w))]}
                        ∪ files w1)
    /\ returns body /\ records body
    /\ (forall w1, dial_src (snd (body w1)) = tl (dial_src w1)).
Proof.
  unfold gatherServer. rewrite bind_run.
  assert (Hr : rand_Int63 w = (Ret (hd 0 (rand_src w)), snd (rand_Int63 w))).
  { unfold rand_Int63. destruct (rand_src w); reflexivity. }
  rewrite Hr. cbn [snd].
  fold (recvSocket_of filepath_Join p (hd 0 (rand_src w))).
  rewrite !ResolveUnixAddr_unixgram.
  eexists. split; [reflexivity |].
  split; [| split; [frame | split; [frame |]]].
  - intros w1. rewrite bind_run. unfold net_DialUnix, open_socket.
    destruct (dial_src w1) as [| [s | bound e] rest]; world_simpl.
    + left. reflexivity.
    + right.
      match goal with
      | |- files (snd (?k ?w2)) = _ =>
          assert (Hk : keeps files k) by frame; rewrite (Hk w2)
      end.
      reflexivity.
    + destruct bound; [right | left]; reflexivity.
  - intros w1. rewrite bind_run. unfold net_DialUnix, open_socket.
    destruct (dial_src w1) as [| [s | bound e] rest] eqn:E; world_simpl.
    + exact E.
    + match goal with
      | |- dial_src (snd (?k ?w2)) = _ =>
          assert (Hk : keeps dial_src k) by frame; rewrite (Hk w2)
      end.
      reflexivity.
    + reflexivity.
Qed.

Lemma rand_Int63_keeps_files : keeps files rand_Int63.
Proof. unfold rand_Int63. prim. Qed.

(** [C9] The datagram exchange always returns, and whatever the way
    it ends (success, protocol error, I/O error) the path of its local
    endpoint does not exist afterwards: the files are those that
    existed before the call, less that path. *)
Theorem gatherServer_removes_endpoint (p : PowerdnsRecursor)
    (address : string) (newProtocol : bool) (w : World) :
  let recvSocket := recvSocket_of filepath_Join p (hd 0 (rand_src w)) in
  exists (r : option error) (w' : World),
    gatherServer filepath_Join p address newProtocol w = (Ret r, w')
    /\ (recvSocket ∉ files w')
    /\ files w' = (files w ∖ {[recvSocket]}).
Proof.
  intros recvSocket.
  destruct (gatherServer_unfold p address newProtocol w)
    as (body & -> & Hfiles & Hret & _ & _).
  fold recvSocket in Hfiles |- *.
  pose proof (rand_Int63_keeps_files w) as H0.
  set (w0 := snd (rand_Int63 w)) in *.
  unfold defer. destruct (Hret w0) as (r & w1 & Hb). rewrite Hb.
  specialize (Hfiles w0). rewrite Hb in Hfiles. cbn [snd] in Hfiles.
  unfold os_Remove.
  rewrite H0 in Hfiles. clear H0 Hb Hret.
  destruct (decide (recvSocket ∈ files w1)) as [Hin | Hout];
    eexists _, _; (split; [reflexivity |]); world_simpl.
  - split; [apply removed_absent |].
    destruct Hfiles as [-> | ->]; [reflexivity | apply remove_added].
  - split; [exact Hout |].
    destruct Hfiles as [E | E]; rewrite E in Hout |- *.
    + now apply remove_absent.
    + exfalso. apply Hout, elem_of_union_l, elem_of_singleton. reflexivity.
Qed.

(** ** The loop over the configured sockets *)

Lemma rand_Int63_keeps_dials : keeps dial_src rand_Int63.
Proof. unfold rand_Int63. prim. Qed.

Lemma gatherServer_returns (p : PowerdnsRecursor) (address : string)
    (newProtocol : bool) :
  returns (gatherServer filepath_Join p address newProtocol).
Proof. unfold gatherServer. frame. Qed.

Lemma gatherServer_records (p : PowerdnsRecursor) (address : string)
    (newProtocol : bool) :
  records (gatherServer filepath_Join p address newProtocol).
Proof. unfold gatherServer. frame. Qed.

(** Every exchange dials once, whatever becomes of it. *)
Lemma gatherServer_dials (p : PowerdnsRecursor) (address : string)
    (newProtocol : bool) (w : World) :
  dial_src (snd (gatherServer filepath_Join p address newProtocol w))
  = tl (dial_src w).
Proof.
  destruct (gatherServer_unfold p address newProtocol w)
    as (body & -> & _ & _ & _ & Hd).
  unfold defer. specialize (Hd (snd (rand_Int63 w))).
  destruct (body (snd (rand_Int63 w))) as [r w1]. cbn [snd] in Hd.
  pose proof (os_Remove_keeps_dials
                (recvSocket_of filepath_Join p (hd 0 (rand_src w))) w1) as Hk.
  destruct (os_Remove _ w1) as [[e | msg] w2]; cbn [snd] in *;
    now rewrite Hk, Hd, rand_Int63_keeps_dials.
Qed.

Lemma bind_assoc {A B C} (m : M A) (f : A -> M B) (g : B -> M C) (w : World) :
  bind (bind m f) g w = bind m (fun a => bind (f a) g) w.
Proof.
  unfold bind. destruct (m w) as [[a | msg] w1]; reflexivity.
Qed.

Lemma gatherEach_returns (p : PowerdnsRecursor) (sockets : list string) :
  returns (gatherEach filepath_Join p sockets).
Proof.
  induction sockets as [| a l IH]; simpl; [apply returns_ret |].
  pose proof gatherServer_returns. frame.
Qed.

Lemma gatherEach_records (p : PowerdnsRecursor) (sockets : list string) :
  records (gatherEach filepath_Join p sockets).
Proof.
  induction sockets as [| a l IH]; simpl; [apply records_ret |].
  pose proof gatherServer_records. frame.
Qed.

Lemma gatherEach_dials (p : PowerdnsRecursor) (sockets : list string) :
  forall w, dial_src (snd (gatherEach filepath_Join p sockets w))
            = skipn (length sockets) (dial_src w).
Proof.
  induction sockets as [| a l IH]; intros w; simpl; [reflexivity |].
  rewrite bind_run.
  destruct (gatherServer_returns p a (NewControlProtocol p) w)
    as (r & w1 & Hg).
  pose proof (gatherServer_dials p a (NewControlProtocol p) w) as Hd.
  rewrite Hg in Hd |- *. cbn [snd] in Hd.
  rewrite bind_run.
  assert (Hrec : exists w2, (match r with
                             | Some e => acc_AddError e
                             | None => ret tt
                             end) w1 = (Ret tt, w2)
                            /\ dial_src w2 = dial_src w1).
  { destruct r; eexists; split; reflexivity. }
  destruct Hrec as (w2 & -> & Hw2).
  rewrite IH, Hw2, Hd.
  destruct (dial_src w); simpl; [apply skipn_nil | reflexivity].
Qed.

Lemma gatherEach_app (p : PowerdnsRecursor) (l1 l2 : list string) :
  forall w, gatherEach filepath_Join p (l1 ++ l2) w
            = gatherEach filepath_Join p l2
                (snd (gatherEach filepath_Join p l1 w)).
Proof.
  induction l1 as [| a l IH]; intros w; simpl; [reflexivity |].
  rewrite !bind_run.
  destruct (gatherServer_returns p a (NewControlProtocol p) w)
    as (r & w1 & ->).
  rewrite !bind_run.
  destruct r; simpl; apply IH.
Qed.

(** [C8] One target's failure does not stop the batch.  When the
    exchange for a configured target fails with [err], whatever
    happened to the targets before it, [Gather] adds [err] to the
    accumulator, goes on with every target after it from there, and
    returns no error; the error is still in the accumulator at the
    end, and one dial was made per configured target. *)
Theorem Gather_continues_after_failure (p : PowerdnsRecursor) (w : World)
    (before after : list string) (target : string) (err : error)
    (w1 : World) :
  UnixSockets p = before ++ target :: after ->
  gatherServer filepath_Join p target (NewControlProtocol p)
               (snd (gatherEach filepath_Join p before w))
  = (Ret (Some err), w1) ->
  exists w',
    Gather filepath_Join p w = (Ret None, w')
    /\ w' = snd (gatherEach filepath_Join p after
                   (set_acc (acc w1 ++ [AddError err]) w1))
    /\ In (AddError err) (acc w')
    /\ dial_src w' = skipn (length (UnixSockets p)) (dial_src w).
Proof.
  intros Hsockets Hfail.
  assert (Hrun : gatherEach filepath_Join p (UnixSockets p) w
                 = gatherEach filepath_Join p after
                     (set_acc (acc w1 ++ [AddError err]) w1)).
  { rewrite Hsockets, gatherEach_app. simpl. rewrite bind_run, Hfail.
    rewrite bind_run. reflexivity. }
  pose proof (gatherEach_dials p (UnixSockets p) w) as Hdials.
  unfold Gather.
  assert (Hlen : (len (UnixSockets p) =? 0) = false).
  { rewrite Hsockets. unfold len. rewrite length_app. simpl.
    apply Z.eqb_neq. lia. }
  rewrite Hlen, bind_run.
  rewrite Hrun in Hdials |- *.
  destruct (gatherEach_returns p after (set_acc (acc w1 ++ [AddError err]) w1))
    as ([] & w' & Hafter).
  destruct (gatherEach_records p after (set_acc (acc w1 ++ [AddError err]) w1))
    as (l & Hacc).
  rewrite Hafter in Hdials, Hacc |- *. cbn [snd acc set_acc] in *.
  exists w'. repeat split; [| exact Hdials].
  rewrite Hacc. apply in_or_app. left. apply in_or_app. right. now left.
Qed.

(** With no socket configured, [Gather] runs the one exchange with
    the default control socket and returns its error as it is. *)
Lemma Gather_default (p : PowerdnsRecursor) (w : World) :
  UnixSockets p = [] ->
  Gather filepath_Join p w
  = gatherServer filepath_Join p "/var/run/pdns_recursor.controlsocket"
                 (NewControlProtocol p) w.
Proof. intros H. unfold Gather. now rewrite H. Qed.

End LegacyFacts.

(** ** The stream driver *)

Lemma writeNativeUIntToConn_sends (plat : Platform) (conn : nat) (value : Z)
    (w : World) (s : Socket) (rest : list WriteAnswer) :
  IntSize plat = 32 \/ IntSize plat = 64 ->
  socks w !! conn = Some s ->
  write_answers s = WriteOk :: rest ->
  writeNativeUIntToConn plat conn value w
  = (Ret (uintSizeInBytes plat, None),
     set_sent (sent w ++ [nativeUIntBytes plat value])
       (set_socks (<[conn := set_write_answers rest s]> (socks w)) w)).
Proof.
  intros Hsize Hs Hw.
  unfold writeNativeUIntToConn, nativeUIntBytes, uintSizeInBytes.
  destruct Hsize as [E | E]; rewrite E;
    change (Z.quot 32 8) with 4; change (Z.quot 64 8) with 8;
    cbn [Z.eqb Pos.eqb]; unfold conn_Write; rewrite Hs, Hw.
  - now rewrite getEndianness_native, len_PutUint32.
  - now rewrite getEndianness_native, len_PutUint64.
Qed.

(** The request phase of [gatherFromV3Server]: the dial, the deadline
    and the three writes, all successful. *)
Ltac v3_request Hsize Hdial Hdl Hwr :=
  unfold gatherFromV3Server; rewrite bind_run; unfold net_Dial;
  rewrite Hdial; world_simpl; unfold defer;
  rewrite bind_run; unfold conn_SetDeadline; world_simpl;
  rewrite lookup_insert_eq, Hdl;
  rewrite bind_run; unfold conn_Write at 1; world_simpl;
  rewrite lookup_insert_eq, Hwr; world_simpl;
  rewrite bind_run;
  erewrite writeNativeUIntToConn_sends;
    [| exact Hsize | world_simpl; apply lookup_insert_eq
     | world_simpl; reflexivity ];
  rewrite bind_run; unfold conn_Write at 1; world_simpl;
  rewrite lookup_insert_eq; world_simpl.

Lemma uint_small (plat : Platform) (x : Z) :
  IntSize plat = 32 \/ IntSize plat = 64 ->
  0 <= x < 2 ^ 31 -> uint plat x = x.
Proof.
  intros [E | E] Hx; unfold uint; rewrite E; apply Z.mod_small; lia.
Qed.

Lemma conn_Close_frame (conn : nat) (w : World) :
  exists e w', conn_Close conn w = (Ret e, w')
               /\ acc w' = acc w /\ sent w' = sent w.
Proof.
  unfold conn_Close. destruct (socks w !! conn); eauto 10.
Qed.

(** The world [readNativeUIntFromConn] leaves: one read answer consumed. *)
Lemma readNativeUIntFromConn_world (plat : Platform) (conn : nat) (w : World)
    (s : Socket) (a : ReadAnswer) (rest : list ReadAnswer) :
  socks w !! conn = Some s -> read_answers s = a :: rest ->
  snd (readNativeUIntFromConn plat conn w)
  = set_socks (<[conn := set_read_answers rest s]> (socks w)) w.
Proof.
  intros Hs Ha. unfold readNativeUIntFromConn. rewrite bind_run.
  unfold conn_Read. rewrite Hs, Ha.
  destruct (rd_err a); [reflexivity |].
  destruct (negb _); [reflexivity |].
  destruct (_ =? 4); [reflexivity |].
  destruct (_ =? 8); reflexivity.
Qed.

Lemma len_nil_iff {A} (l : list A) : len l = 0 <-> l = [].
Proof.
  unfold len. destruct l; simpl; split; intros H; try reflexivity;
    try discriminate; lia.
Qed.

(** The status read of the stream exchange, when a status arrives. *)
Ltac v3_status Hrd Hst Hgot :=
  rewrite bind_run; unfold conn_Read at 1; world_simpl;
  rewrite lookup_insert_eq; world_simpl; rewrite Hrd; world_simpl;
  rewrite Hst; change (length (zeros 4)) with 4%nat;
  let E := fresh "E" in
  destruct (len (received 4 _) =? 0) eqn:E;
  [ apply Z.eqb_eq, len_nil_iff in E; now elim Hgot | clear E ].

(** The length read of the stream exchange, when it gives [L]. *)
Ltac v3_length Hlen :=
  rewrite bind_run;
  match goal with
  | |- context [readNativeUIntFromConn ?plat ?c ?W] =>
      let HL := fresh "HL" in
      let HW := fresh "HW" in
      let o := fresh "o" in
      let W4 := fresh "W" in
      pose proof (Hlen c W _ _ ltac:(world_simpl; apply lookup_insert_eq)
                       ltac:(world_simpl; reflexivity)) as HL;
      pose proof (readNativeUIntFromConn_world plat c W _ _ _
                    ltac:(world_simpl; apply lookup_insert_eq)
                    ltac:(world_simpl; reflexivity)) as HW;
      destruct (readNativeUIntFromConn plat c W) as [o W4];
      cbn [fst snd] in HL, HW; subst o W4
  end.

(** [C7] In the stream exchange, when the dial, the deadline and the
    three writes succeed, a status arrives and the response length is
    read as zero, the exchange fails with the error "received data
    length was 0" and the accumulator receives nothing. *)
Theorem gatherFromV3Server_zero_length
    (plat : Platform) (address : string) (w : World) (s : Socket)
    (ds : list DialAnswer) (ws : list WriteAnswer)
    (r_status r_len : ReadAnswer) (rs : list ReadAnswer) :
  IntSize plat = 32 \/ IntSize plat = 64 ->
  dial_src w = DialOk s :: ds ->
  deadline_answer s = None ->
  write_answers s = WriteOk :: WriteOk :: WriteOk :: ws ->
  read_answers s = r_status :: r_len :: rs ->
  rd_err r_status = None ->
  received 4 (rd_data r_status) <> [] ->
  (forall conn w0 s0 rest,
      socks w0 !! conn = Some s0 -> read_answers s0 = r_len :: rest ->
      fst (readNativeUIntFromConn plat conn w0) = Ret (0, None)) ->
  exists w', gatherFromV3Server plat address w = (Ret (Some ErrZeroLength), w')
             /\ acc w' = acc w.
Proof.
  intros Hsize Hdial Hdl Hwr Hrd Hst Hgot Hlen.
  v3_request Hsize Hdial Hdl Hwr.
  v3_status Hrd Hst Hgot.
  v3_length Hlen.
  cbn [Z.eqb]. unfold ret.
  match goal with
  | |- context [conn_Close ?c ?W] =>
      destruct (conn_Close_frame c W) as (e & w' & -> & Ha & _)
  end.
  exists w'. split; [reflexivity |]. rewrite Ha. reflexivity.
Qed.

Lemma length_zeros (n : Z) : length (zeros n) = Z.to_nat n.
Proof. unfold zeros. apply repeat_length. Qed.

Lemma len_received_le (k : nat) (data : list Z) :
  0 <= len (received k data) <= Z.of_nat k.
Proof.
  unfold len, received. rewrite length_map, length_firstn. lia.
Qed.

(** [C6] In the stream exchange, once the response length [L] has
    been read (not zero, and a length the runtime can allocate), a
    body read that delivers a number of bytes other than [L] makes the
    exchange fail: it returns an error and the accumulator receives
    nothing, so nothing decoded from the partial body is reported.
    When the read itself reports no error, the error returned is "no
    data received, expected L bytes but got n". *)
Theorem gatherFromV3Server_short_body
    (plat : Platform) (address : string) (w : World) (s : Socket)
    (ds : list DialAnswer) (ws : list WriteAnswer)
    (r_status r_len r_body : ReadAnswer) (rs : list ReadAnswer) (L : Z) :
  IntSize plat = 32 \/ IntSize plat = 64 ->
  dial_src w = DialOk s :: ds ->
  deadline_answer s = None ->
  write_answers s = WriteOk :: WriteOk :: WriteOk :: ws ->
  read_answers s = r_status :: r_len :: r_body :: rs ->
  rd_err r_status = None ->
  received 4 (rd_data r_status) <> [] ->
  (forall conn w0 s0 rest,
      socks w0 !! conn = Some s0 -> read_answers s0 = r_len :: rest ->
      fst (readNativeUIntFromConn plat conn w0) = Ret (L, None)) ->
  0 < L <= 2 ^ (IntSize plat - 1) - 1 ->
  L <= maxAlloc plat ->
  len (received (Z.to_nat L) (rd_data r_body)) <> L ->
  exists e w',
    gatherFromV3Server plat address w = (Ret (Some e), w')
    /\ acc w' = acc w
    /\ (rd_err r_body = None ->
        e = ErrLengthMismatch L (len (received (Z.to_nat L) (rd_data r_body)))).
Proof.
  intros Hsize Hdial Hdl Hwr Hrd Hst Hgot Hlen HL Halloc Hshort.
  v3_request Hsize Hdial Hdl Hwr.
  v3_status Hrd Hst Hgot.
  v3_length Hlen.
  destruct (L =? 0) eqn:E0; [apply Z.eqb_eq in E0; lia | clear E0].
  rewrite bind_run. unfold make_bytes.
  destruct ((0 <=? L) && (L <=? 2 ^ (IntSize plat - 1) - 1)
            && (L <=? maxAlloc plat)) eqn:Emk.
  2:{ apply andb_false_iff in Emk as [Emk | Emk];
        [apply andb_false_iff in Emk as [Emk | Emk] |];
        (apply Z.leb_gt in Emk; lia). }
  unfold ret at 1.
  rewrite bind_run. unfold conn_Read at 1. world_simpl.
  rewrite lookup_insert_eq. world_simpl. rewrite length_zeros.
  pose proof (len_received_le (Z.to_nat L) (rd_data r_body)) as Hn.
  set (n := len (received (Z.to_nat L) (rd_data r_body))) in *.
  assert (Hu : uint plat n = n).
  { unfold uint. apply Z.mod_small. split; [lia |].
    assert (2 ^ (IntSize plat - 1) < 2 ^ IntSize plat).
    { destruct Hsize as [-> | ->]; reflexivity. }
    lia. }
  destruct (rd_err r_body) as [e |].
  - unfold ret.
    match goal with
    | |- context [conn_Close ?c ?W] =>
        destruct (conn_Close_frame c W) as (e' & w' & -> & Ha & _)
    end.
    exists e, w'. split; [reflexivity |]. split; [| discriminate].
    rewrite Ha. reflexivity.
  - rewrite Hu.
    destruct (n =? L) eqn:E; [apply Z.eqb_eq in E; contradiction |].
    cbn [negb]. unfold ret.
    match goal with
    | |- context [conn_Close ?c ?W] =>
        destruct (conn_Close_frame c W) as (e' & w' & -> & Ha & _)
    end.
    eexists _, w'. split; [reflexivity |]. split; [| reflexivity].
    rewrite Ha. reflexivity.
Qed.

(** ** The request each driver sends *)

(** The stream driver: three writes, whatever the response. *)
Lemma gatherFromV3Server_request
    (plat : Platform) (address : string) (w : World) (s : Socket)
    (ds : list DialAnswer) (ws : list WriteAnswer) :
  IntSize plat = 32 \/ IntSize plat = 64 ->
  dial_src w = DialOk s :: ds ->
  deadline_answer s = None ->
  write_answers s = WriteOk :: WriteOk :: WriteOk :: ws ->
  sent (snd (gatherFromV3Server plat address w))
  = sent w ++ [[0; 0; 0; 0]; nativeUIntBytes plat 7;
               bytes_of_string "get-all"].
Proof.
  intros Hsize Hdial Hdl Hwr.
  v3_request Hsize Hdial Hdl Hwr.
  match goal with
  | |- context [bind ?m ?k ?W] =>
      change (sent (snd (defer (conn_Close (next_fd w)) (bind m k) W)) =
              sent w ++ [[0; 0; 0; 0]; nativeUIntBytes plat 7;
                         bytes_of_string "get-all"]);
      assert (Hk : keeps sent (defer (conn_Close (next_fd w)) (bind m k)))
        by frame;
      rewrite (Hk W)
  end.
  world_simpl.
  rewrite (uint_small plat (len (bytes_of_string "get-all")) Hsize)
    by (vm_compute; split; [discriminate | reflexivity]).
  rewrite <- !app_assoc. reflexivity.
Qed.

(** The datagram driver with [newProtocol] set: two writes, the status
    code and the command, and no length between them. *)
Lemma gatherServer_new_protocol_request
    (filepath_Join : list string -> string) (p : PowerdnsRecursor)
    (address : string) (w : World) (s : Socket)
    (ds : list DialAnswer) (ws : list WriteAnswer) :
  dial_src w = DialOk s :: ds ->
  hd None (chmod_src w) = None ->
  deadline_answer s = None ->
  write_answers s = WriteOk :: WriteOk :: ws ->
  sent (snd (gatherServer filepath_Join p address true w))
  = sent w ++ [[0; 0; 0; 0]; bytes_of_string "get-all"].
Proof.
  intros Hdial Hchmod Hdl Hwr.
  unfold gatherServer. rewrite bind_run.
  assert (Hr : exists x w0, rand_Int63 w = (Ret x, w0)
                            /\ dial_src w0 = dial_src w
                            /\ chmod_src w0 = chmod_src w
                            /\ sent w0 = sent w).
  { unfold rand_Int63. destruct (rand_src w); eexists _, _; repeat split. }
  destruct Hr as (x & w0 & -> & Hd0 & Hc0 & Hs0).
  rewrite <- Hd0 in Hdial. rewrite <- Hc0 in Hchmod. rewrite <- Hs0.
  clear Hd0 Hc0 Hs0.
  fold (recvSocket_of filepath_Join p x).
  set (P := recvSocket_of filepath_Join p x).
  rewrite !ResolveUnixAddr_unixgram.
  unfold defer at 1. rewrite bind_run.
  unfold net_DialUnix, open_socket. rewrite Hdial. world_simpl.
  rewrite bind_run.
  assert (Hch : os_Chmod P (mode p)
                  (set_next_fd (S (next_fd w0))
                     (set_socks (<[next_fd w0 := s]> (socks w0))
                        (set_files
                           ({[Name {| Name := P; Net := "unixgram" |}]}
                            ∪ files w0) (set_dial_src ds w0))))
                = (Ret None,
                   set_chmod_src (tl (chmod_src w0))
                     (set_next_fd (S (next_fd w0))
                        (set_socks (<[next_fd w0 := s]> (socks w0))
                           (set_files
                              ({[Name {| Name := P; Net := "unixgram" |}]}
                               ∪ files w0) (set_dial_src ds w0)))))
                  \/ os_Chmod P (mode p)
                       (set_next_fd (S (next_fd w0))
                          (set_socks (<[next_fd w0 := s]> (socks w0))
                             (set_files
                                ({[Name {| Name := P; Net := "unixgram" |}]}
                                 ∪ files w0) (set_dial_src ds w0))))
                     = (Ret None,
                        set_next_fd (S (next_fd w0))
                          (set_socks (<[next_fd w0 := s]> (socks w0))
                             (set_files
                                ({[Name {| Name := P; Net := "unixgram" |}]}
                                 ∪ files w0) (set_dial_src ds w0))))).
  { unfold os_Chmod. world_simpl.
    destruct (chmod_src w0) as [| c cs]; cbn [hd tl] in *.
    - right. rewrite decide_True; [reflexivity |].
      apply elem_of_union_l, elem_of_singleton. reflexivity.
    - left. now subst c. }
  destruct Hch as [-> | ->].
  all: unfold defer at 1; rewrite bind_run; unfold conn_SetDeadline;
    world_simpl; rewrite lookup_insert_eq, Hdl;
    rewrite bind_run; rewrite bind_run; unfold conn_Write at 1; world_simpl;
    rewrite lookup_insert_eq, Hwr; world_simpl; unfold ret at 1;
    rewrite bind_run; unfold conn_Write at 1; world_simpl;
    rewrite lookup_insert_eq; world_simpl.
  all: match goal with
       | |- context [bind ?m ?k ?W] =>
           change (sent (snd (defer (os_Remove P)
                                (defer (conn_Close (next_fd w0)) (bind m k))
                                W))
                   = sent w0 ++ [[0; 0; 0; 0]; bytes_of_string "get-all"]);
           assert (Hk : keeps sent
                          (defer (os_Remove P)
                             (defer (conn_Close (next_fd w0)) (bind m k))))
             by frame;
           rewrite (Hk W)
       end;
    world_simpl; rewrite <- !app_assoc; reflexivity.
Qed.

(** [C2] The request of the version 3 protocol.  The stream driver
    [gatherFromV3Server], when its dial, its deadline and its writes
    succeed, puts on the socket the 4 zero bytes, then the length of
    the command in the machine's own width and byte order, then the 7
    bytes of "get-all" with no line break after them, and nothing
    else.  The protocol flag of the plugin does not lead there:
    [Gather] passes it to the datagram driver [gatherServer], which
    with the flag set sends the 4 zero bytes and "get-all", again with
    no line break, and no length. *)
Theorem v3_request_bytes
    (plat : Platform) (filepath_Join : list string -> string)
    (p : PowerdnsRecursor) (address : string) (w : World) (s : Socket)
    (ds : list DialAnswer) (ws : list WriteAnswer) :
  IntSize plat = 32 \/ IntSize plat = 64 ->
  NewControlProtocol p = true ->
  dial_src w = DialOk s :: ds ->
  hd None (chmod_src w) = None ->
  deadline_answer s = None ->
  write_answers s = WriteOk :: WriteOk :: WriteOk :: ws ->
  sent (snd (gatherFromV3Server plat address w))
  = sent w ++ [[0; 0; 0; 0]; nativeUIntBytes plat 7;
               [103; 101; 116; 45; 97; 108; 108]]
  /\ len (nativeUIntBytes plat 7) = uintSizeInBytes plat
  /\ (forall (conn : nat) (rw : World) (rs : Socket)
             (rrest : list ReadAnswer),
         socks rw !! conn = Some rs ->
         read_answers rs
         = {| rd_data := nativeUIntBytes plat 7; rd_err := None |} :: rrest ->
         fst (readNativeUIntFromConn plat conn rw) = Ret (7, None))
  /\ sent (snd (gatherServer filepath_Join p address
                             (NewControlProtocol p) w))
     = sent w ++ [[0; 0; 0; 0]; [103; 101; 116; 45; 97; 108; 108]].
Proof.
  intros Hsize Hflag Hdial Hchmod Hdl Hwr.
  split; [exact (gatherFromV3Server_request plat address w s ds ws
                   Hsize Hdial Hdl Hwr) |].
  split; [| split].
  - unfold nativeUIntBytes, uintSizeInBytes.
    destruct Hsize as [-> | ->];
      [apply len_PutUint32 | apply len_PutUint64].
  - intros conn rw rs rrest Hs Hr.
    unfold readNativeUIntFromConn. rewrite bind_run. unfold conn_Read.
    rewrite Hs, Hr. world_simpl. rewrite length_zeros.
    unfold nativeUIntBytes, uintSizeInBytes, uint.
    rewrite getEndianness_native.
    destruct Hsize as [-> | ->].
    + change (Z.to_nat (Z.quot 32 8)) with 4%nat.
      change (Z.quot 32 8) with 4. cbn [Z.eqb Pos.eqb].
      rewrite received_PutUint32, len_PutUint32, refill_PutUint32.
      cbn [Z.eqb Pos.eqb negb].
      rewrite Uint32_PutUint32 by (vm_compute; split; [discriminate | reflexivity]).
      reflexivity.
    + change (Z.to_nat (Z.quot 64 8)) with 8%nat.
      change (Z.quot 64 8) with 8. cbn [Z.eqb Pos.eqb].
      rewrite received_PutUint64, len_PutUint64, refill_PutUint64.
      cbn [Z.eqb Pos.eqb negb].
      rewrite Uint64_PutUint64 by (vm_compute; split; [discriminate | reflexivity]).
      reflexivity.
  - rewrite Hflag.
    exact (gatherServer_new_protocol_request filepath_Join p address w s ds
             (WriteOk :: ws) Hdial Hchmod Hdl Hwr).
Qed.


(** ** The drivers on sample environments *)

Lemma v3_request_bytes_witness :
  sent (snd (gatherFromV3Server linux_amd64 "/run/pdns.controlsocket"
               (world_with [DialOk (socket_with [])])))
  = sent (world_with [DialOk (socket_with [])])
    ++ [[0; 0; 0; 0]; nativeUIntBytes linux_amd64 7;
        [103; 101; 116; 45; 97; 108; 108]]
  /\ len (nativeUIntBytes linux_amd64 7) = uintSizeInBytes linux_amd64
  /\ (forall (conn : nat) (rw : World) (rs : Socket)
             (rrest : list ReadAnswer),
         socks rw !! conn = Some rs ->
         read_answers rs
         = {| rd_data := nativeUIntBytes linux_amd64 7; rd_err := None |}
           :: rrest ->
         fst (readNativeUIntFromConn linux_amd64 conn rw) = Ret (7, None))
  /\ sent (snd (gatherServer join_plain plugin_new "/run/pdns.controlsocket"
                  (NewControlProtocol plugin_new)
                  (world_with [DialOk (socket_with [])])))
     = sent (world_with [DialOk (socket_with [])])
       ++ [[0; 0; 0; 0]; [103; 101; 116; 45; 97; 108; 108]].
Proof.
  apply (v3_request_bytes linux_amd64 join_plain plugin_new
           "/run/pdns.controlsocket" (world_with [DialOk (socket_with [])])
           (socket_with []) [] []).
  - right. reflexivity.
  - reflexivity.
  - reflexivity.
  - reflexivity.
  - reflexivity.
  - reflexivity.
Defined.

(** With the protocol flag set, [Gather] sends the status code and the
    command and no length: its request is not the 4 zero bytes, the
    native length of the command and the command, on a 64-bit machine
    or on a 32-bit one. *)
Lemma protocol_flag_request_counterexample :
  NewControlProtocol plugin_new = true
  /\ sent (snd (Gather join_plain plugin_new
                  (world_with [DialOk (socket_with [[0; 0; 0; 0];
                                                    two_metrics])])))
     = [[0; 0; 0; 0]; [103; 101; 116; 45; 97; 108; 108]]
  /\ concat (sent (snd (Gather join_plain plugin_new
                          (world_with [DialOk (socket_with [[0; 0; 0; 0];
                                                            two_metrics])]))))
     <> [0; 0; 0; 0] ++ nativeUIntBytes linux_amd64 7
        ++ bytes_of_string "get-all"
  /\ concat (sent (snd (Gather join_plain plugin_new
                          (world_with [DialOk (socket_with [[0; 0; 0; 0];
                                                            two_metrics])]))))
     <> [0; 0; 0; 0] ++ nativeUIntBytes linux_386 7
        ++ bytes_of_string "get-all".
Proof.
  split; [reflexivity |]. split; [vm_compute; reflexivity |].
  split; vm_compute; discriminate.
Qed.

Example nativeUIntBytes_7 :
  nativeUIntBytes linux_amd64 7 = [7; 0; 0; 0; 0; 0; 0; 0]
  /\ nativeUIntBytes linux_s390x 7 = [0; 0; 0; 0; 0; 0; 0; 7]
  /\ nativeUIntBytes linux_386 7 = [7; 0; 0; 0]
  /\ nativeUIntBytes linux_mips 7 = [0; 0; 0; 7]
  /\ bytes_of_string "get-all" = [103; 101; 116; 45; 97; 108; 108].
Proof. evaluate. Qed.

Lemma gatherFromV3Server_zero_length_witness :
  exists w',
    gatherFromV3Server linux_amd64 "/run/pdns.controlsocket"
      (world_with [DialOk (socket_with [[0; 0; 0; 0];
                                        [0; 0; 0; 0; 0; 0; 0; 0]])])
    = (Ret (Some ErrZeroLength), w')
    /\ acc w' = acc (world_with [DialOk (socket_with
                                   [[0; 0; 0; 0]; [0; 0; 0; 0; 0; 0; 0; 0]])]).
Proof.
  apply (gatherFromV3Server_zero_length linux_amd64 "/run/pdns.controlsocket"
           _ (socket_with [[0; 0; 0; 0]; [0; 0; 0; 0; 0; 0; 0; 0]]) [] []
           {| rd_data := [0; 0; 0; 0]; rd_err := None |}
           {| rd_data := [0; 0; 0; 0; 0; 0; 0; 0]; rd_err := None |} []).
  - right. reflexivity.
  - reflexivity.
  - reflexivity.
  - reflexivity.
  - reflexivity.
  - reflexivity.
  - vm_compute. discriminate.
  - intros conn w0 s0 rest H1 H2.
    unfold readNativeUIntFromConn. rewrite bind_run. unfold conn_Read.
    rewrite H1, H2. reflexivity.
Defined.

Lemma gatherFromV3Server_short_body_witness :
  exists e w',
    gatherFromV3Server linux_amd64 "/run/pdns.controlsocket"
      (world_with [DialOk (socket_with [[0; 0; 0; 0];
                                        [8; 0; 0; 0; 0; 0; 0; 0];
                                        [97; 9; 49; 10]])])
    = (Ret (Some e), w')
    /\ acc w' = acc (world_with [DialOk (socket_with
                                   [[0; 0; 0; 0]; [8; 0; 0; 0; 0; 0; 0; 0];
                                    [97; 9; 49; 10]])])
    /\ (rd_err {| rd_data := [97; 9; 49; 10]; rd_err := None |} = None ->
        e = ErrLengthMismatch 8
              (len (received (Z.to_nat 8)
                      (rd_data {| rd_data := [97; 9; 49; 10];
                                  rd_err := None |})))).
Proof.
  apply (gatherFromV3Server_short_body linux_amd64 "/run/pdns.controlsocket"
           _ (socket_with [[0; 0; 0; 0]; [8; 0; 0; 0; 0; 0; 0; 0];
                           [97; 9; 49; 10]]) [] []
           {| rd_data := [0; 0; 0; 0]; rd_err := None |}
           {| rd_data := [8; 0; 0; 0; 0; 0; 0; 0]; rd_err := None |}
           {| rd_data := [97; 9; 49; 10]; rd_err := None |} [] 8).
  - right. reflexivity.
  - reflexivity.
  - reflexivity.
  - reflexivity.
  - reflexivity.
  - reflexivity.
  - vm_compute. discriminate.
  - intros conn w0 s0 rest H1 H2.
    unfold readNativeUIntFromConn. rewrite bind_run. unfold conn_Read.
    rewrite H1, H2. reflexivity.
  - vm_compute. repeat split; discriminate.
  - vm_compute. discriminate.
  - vm_compute. discriminate.
Defined.

(** The stream exchange, evaluated: a full body is decoded and
    reported; a short one, or a length of zero, is not. *)
Example gatherFromV3Server_runs :
  (let w' := gatherFromV3Server linux_amd64 "/run/pdns.controlsocket"
               (world_with [DialOk (socket_with [[0; 0; 0; 0];
                                                 [8; 0; 0; 0; 0; 0; 0; 0];
                                                 two_metrics])]) in
   fst w' = Ret None
   /\ acc (snd w')
      = [AddFields "powerdns_recursor" (<["b" := 2]> (<["a" := 1]> ∅))
                   {["server" := "/run/pdns.controlsocket"]}])
  /\ (let w' := gatherFromV3Server linux_amd64 "/run/pdns.controlsocket"
                  (world_with [DialOk (socket_with [[0; 0; 0; 0];
                                                    [8; 0; 0; 0; 0; 0; 0; 0];
                                                    [97; 9; 49; 10]])]) in
      fst w' = Ret (Some (ErrLengthMismatch 8 4)) /\ acc (snd w') = [])
  /\ (let w' := gatherFromV3Server linux_amd64 "/run/pdns.controlsocket"
                  (world_with [DialOk (socket_with [[0; 0; 0; 0];
                                                    [255; 255; 255; 255;
                                                     255; 255; 255; 255]])]) in
      fst w' = Panic "runtime error: makeslice: len out of range"
      /\ acc (snd w') = []).
Proof. evaluate. Qed.

Lemma Gather_continues_after_failure_witness :
  exists w',
    Gather join_plain plugin_three world_three = (Ret None, w')
    /\ w' = snd (gatherEach join_plain plugin_three ["/run/c.sock"]
                   (set_acc
                      (acc (snd (gatherServer join_plain plugin_three
                                   "/run/b.sock" false
                                   (snd (gatherEach join_plain plugin_three
                                           ["/run/a.sock"] world_three))))
                       ++ [AddError ErrNotExist])
                      (snd (gatherServer join_plain plugin_three
                              "/run/b.sock" false
                              (snd (gatherEach join_plain plugin_three
                                      ["/run/a.sock"] world_three))))))
    /\ In (AddError ErrNotExist) (acc w')
    /\ dial_src w' = skipn (length (UnixSockets plugin_three))
                           (dial_src world_three).
Proof.
  apply (Gather_continues_after_failure join_plain plugin_three world_three
           ["/run/a.sock"] ["/run/c.sock"] "/run/b.sock" ErrNotExist).
  - reflexivity.
  - vm_compute. reflexivity.
Defined.

(** Three targets, the second without a socket: two records and one
    error reach the accumulator, in the order of the targets, and no
    endpoint file is left. *)
Example Gather_three_targets :
  let r := Gather join_plain plugin_three world_three in
  fst r = Ret None
  /\ acc (snd r)
     = [AddFields "powerdns_recursor" (<["b" := 2]> (<["a" := 1]> ∅))
                  {["server" := "/run/a.sock"]};
        AddError ErrNotExist;
        AddFields "powerdns_recursor" (<["b" := 2]> (<["a" := 1]> ∅))
                  {["server" := "/run/c.sock"]}]
  /\ sent (snd r) = [[103; 101; 116; 45; 97; 108; 108; 10];
                     [103; 101; 116; 45; 97; 108; 108; 10]]
  /\ files (snd r) = ∅
  /\ dial_src (snd r) = [].
Proof. evaluate. Qed.

(** A peer that answers with an empty datagram: the exchange fails
    with "no data received"; the endpoint file, which the dial had
    created, is gone. *)
Example gatherServer_empty_datagram :
  let w := world_with [DialOk (socket_with [[]])] in
  let recvSocket := recvSocket_of join_plain plugin_three (hd 0 (rand_src w)) in
  recvSocket = "/tmp/pdns_recursor_telegraf4037200794235010051"
  /\ bool_decide
       (recvSocket
        ∈ files (snd (net_DialUnix "unixgram"
                        {| Name := recvSocket; Net := "unixgram" |}
                        {| Name := "/run/a.sock"; Net := "unixgram" |} w)))
     = true
  /\ fst (gatherServer join_plain plugin_three "/run/a.sock" false w)
     = Ret (Some ErrNoData)
  /\ files (snd (gatherServer join_plain plugin_three "/run/a.sock" false w))
     = ∅.
Proof. evaluate. Qed.

(** * More about the decoder *)

Lemma append_empty_r (s : string) : s +:+ EmptyString = s.
Proof.
  induction s as [|c s IH]; [reflexivity | now rewrite append_cons, IH].
Qed.

Lemma loop_lines_empty : loop_lines EmptyString = [].
Proof. reflexivity. Qed.

Lemma parseLine_union (m : gmap string Z) (line : string) :
  parseLine m line = parseLine ∅ line ∪ m.
Proof.
  unfold parseLine. cbv zeta.
  destruct (len (Split line TAB) <? 2); [now rewrite (left_id ∅ (∪)) |].
  destruct (ParseInt _) as [i [e|]]; [now rewrite (left_id ∅ (∪)) |].
  now rewrite insert_empty, insert_union_singleton_l.
Qed.

Lemma fold_parseLine_union (ls : list string) :
  forall m : gmap string Z,
    fold_left parseLine ls m = fold_left parseLine ls ∅ ∪ m.
Proof.
  induction ls as [|l ls IH]; intros m; simpl;
    [now rewrite (left_id ∅ (∪)) |].
  rewrite (IH (parseLine m l)), (IH (parseLine ∅ l)).
  now rewrite (parseLine_union m l), (assoc_L (∪)).
Qed.

(** [X1] Decoding composes: the mapping of a text made of complete
    lines followed by more text is the mapping of the second part,
    completed by the mapping of the first for the names the second
    does not set. *)
Theorem parseResponse_concat (ls : list string) (rest : string) :
  parseResponse (unlines ls +:+ rest)
  = parseResponse rest ∪ parseResponse (unlines ls).
Proof.
  rewrite !parseResponse_fold.
  rewrite <- (append_empty_r (unlines ls)) at 2.
  rewrite !loop_lines_unlines, loop_lines_empty, app_nil_r, fold_left_app.
  apply fold_parseLine_union.
Qed.

Lemma parseLine_cases (m : gmap string Z) (line : string) :
  parseLine m line = m
  \/ exists k v, valid_line line k v /\ parseLine m line = <[k := v]> m.
Proof.
  unfold parseLine, valid_line. cbv zeta.
  destruct (len (Split line TAB) <? 2) eqn:E; [now left |].
  apply Z.ltb_ge in E.
  destruct (ParseInt _) as [i [e|]] eqn:HP; [now left |].
  right. exists (nth 0 (Split line TAB) EmptyString), i. auto.
Qed.

(** [X2] Whatever the text, every value of the decoded mapping is a
    signed 64-bit integer. *)
Theorem parseResponse_values_int64 (metrics : string) :
  map_Forall (fun (_ : string) (v : Z) => - 2 ^ 63 <= v < 2 ^ 63)
             (parseResponse metrics).
Proof.
  rewrite parseResponse_fold.
  assert (H : forall ls (m : gmap string Z),
             map_Forall (fun (_ : string) v => - 2 ^ 63 <= v < 2 ^ 63) m ->
             map_Forall (fun (_ : string) v => - 2 ^ 63 <= v < 2 ^ 63)
                        (fold_left parseLine ls m)).
  { induction ls as [|l ls IH]; intros m Hm; simpl; [exact Hm |].
    apply IH.
    destruct (parseLine_cases m l) as [-> | (k & v & (_ & _ & Hv) & ->)];
      [exact Hm |].
    apply map_Forall_insert_2; [| exact Hm].
    now apply ParseInt_ok in Hv as [Hr _]. }
  apply H, map_Forall_empty.
Qed.

Lemma fold_parseLine_is_Some (ls : list string) (k : string) :
  forall m : gmap string Z,
    is_Some (fold_left parseLine ls m !! k)
    <-> is_Some (m !! k)
        \/ exists line v, In line ls /\ valid_line line k v.
Proof.
  induction ls as [|l ls IH]; intros m; simpl.
  - split; [auto | intros [H | (? & ? & [] & _)]; exact H].
  - rewrite IH. split.
    + intros [H | (line & v & Hin & Hv)]; [| right; eauto 6].
      destruct (parseLine_cases m l) as [E | (k' & v' & Hv' & E)];
        rewrite E in H; [now left |].
      destruct (decide (k' = k)) as [-> | Hne]; [right; eauto 6 |].
      rewrite lookup_insert_ne in H by exact Hne. now left.
    + intros [H | (line & v & [<- | Hin] & Hv)]; [| | right; eauto 6].
      * left.
        destruct (parseLine_cases m l) as [-> | (k' & v' & _ & ->)];
          [exact H |].
        destruct (decide (k' = k)) as [-> | Hne];
          [rewrite lookup_insert_eq; eauto |].
        now rewrite lookup_insert_ne.
      * left. rewrite (parseLine_valid _ _ _ _ Hv), lookup_insert_eq. eauto.
Qed.

Lemma parseResponse_is_Some (metrics k : string) :
  is_Some (parseResponse metrics !! k)
  <-> exists line v, In line (loop_lines metrics) /\ valid_line line k v.
Proof.
  rewrite parseResponse_fold, fold_parseLine_is_Some, lookup_empty.
  split; [intros [[x Hx] | H]; [discriminate | exact H] | auto].
Qed.

(** [X3] A name is in the decoded mapping exactly when one of the
    lines before the last line break has at least two tab-separated
    fields, that name as the first and a second that [ParseInt]
    accepts. *)
Theorem parseResponse_names (metrics k : string) :
  is_Some (parseResponse metrics !! k)
  <-> exists line v, In line (loop_lines metrics) /\ valid_line line k v.
Proof. apply parseResponse_is_Some. Qed.

Lemma Split_lack_sep (s : string) (sep : ascii) :
  Forall (fun x => lacks sep x = true) (Split s sep).
Proof.
  induction s as [|c s IH]; simpl; [repeat constructor |].
  destruct (Ascii.eqb c sep) eqn:E; [constructor; [reflexivity | exact IH] |].
  pose proof (Split_nonempty s sep) as Hne.
  destruct (Split s sep) as [|x xs]; [congruence |].
  inversion IH as [|? ? Hx Hxs]; subst. constructor; [| exact Hxs].
  simpl. now rewrite E, Hx.
Qed.

Lemma Split_lack_other (c : ascii) (s : string) (sep : ascii) :
  lacks c s = true -> Forall (fun x => lacks c x = true) (Split s sep).
Proof.
  induction s as [|a s IH]; simpl; [repeat constructor |].
  intros H. apply andb_prop in H as [Ha Hs]. specialize (IH Hs).
  destruct (Ascii.eqb a sep); [constructor; [reflexivity | exact IH] |].
  pose proof (Split_nonempty s sep) as Hne.
  destruct (Split s sep) as [|x xs]; [congruence |].
  inversion IH as [|? ? Hx Hxs]; subst. constructor; [| exact Hxs].
  simpl. now rewrite Ha, Hx.
Qed.

Lemma loop_lines_lack_NL (metrics line : string) :
  In line (loop_lines metrics) -> lacks NL line = true.
Proof.
  unfold loop_lines, slice_to. cbv zeta. intros Hin.
  assert (Hin' : In line (Split metrics NL)).
  { rewrite <- (firstn_skipn (Z.to_nat (len (Split metrics NL) - 1))
                             (Split metrics NL)).
    apply in_or_app. now left. }
  clear Hin.
  pose proof (Split_lack_sep metrics NL) as H.
  rewrite List.Forall_forall in H. now apply H.
Qed.

(** [X4] No name of the decoded mapping contains a tab or a line
    break. *)
Theorem parseResponse_names_clean (metrics k : string) :
  is_Some (parseResponse metrics !! k) ->
  lacks TAB k = true /\ lacks NL k = true.
Proof.
  rewrite parseResponse_is_Some. intros (line & v & Hin & Hlen & Hk & _).
  apply loop_lines_lack_NL in Hin.
  assert (Hk0 : In k (Split line TAB)).
  { rewrite <- Hk. apply nth_In. unfold len in Hlen. lia. }
  split.
  - pose proof (Split_lack_sep line TAB) as H.
    rewrite List.Forall_forall in H. now apply H.
  - pose proof (Split_lack_other NL line TAB Hin) as H.
    rewrite List.Forall_forall in H. now apply H.
Qed.

Lemma parseResponse_names_clean_witness :
  is_Some (parseResponse (unlines ["a" +:+ String TAB "1"]) !! "a")
  /\ lacks TAB "a" = true /\ lacks NL "a" = true.
Proof.
  split; [vm_compute; eauto |].
  apply (parseResponse_names_clean (unlines ["a" +:+ String TAB "1"]) "a").
  vm_compute. eauto.
Defined.

Lemma parseLine_extra_fields (m : gmap string Z) (k vs extra : string) :
  lacks TAB k = true -> lacks TAB vs = true ->
  parseLine m (k +:+ String TAB (vs +:+ String TAB extra))
  = parseLine m (k +:+ String TAB vs).
Proof.
  intros Hk Hv. unfold parseLine. cbv zeta.
  rewrite !Split_app_sep, (Split_lacks _ _ Hk), (Split_lacks _ _ Hv).
  pose proof (Split_nonempty extra TAB) as Hne.
  destruct (Split extra TAB) as [|x xs]; [congruence |].
  assert (E1 : (len ([k] ++ [vs] ++ x :: xs) <? 2) = false).
  { apply Z.ltb_ge. unfold len. simpl. lia. }
  assert (E2 : (len ([k] ++ [vs]) <? 2) = false) by reflexivity.
  rewrite E1, E2. reflexivity.
Qed.

(** [X5] Fields after the second are ignored: a line with a third
    field decodes like the line cut after its second field, whether
    the second field parses or not. *)
Theorem parseResponse_ignores_extra_fields
    (before : list string) (k vs extra rest : string) :
  lacks TAB k = true -> lacks NL k = true ->
  lacks TAB vs = true -> lacks NL vs = true ->
  lacks NL extra = true ->
  parseResponse (unlines before
                 +:+ (k +:+ String TAB (vs +:+ String TAB extra))
                 +:+ String NL rest)
  = parseResponse (unlines before +:+ (k +:+ String TAB vs)
                   +:+ String NL rest).
Proof.
  intros Hk Hkn Hv Hvn He.
  rewrite !parseResponse_fold, !loop_lines_unlines, !loop_lines_line.
  rewrite !Split_lacks
    by (rewrite ?lacks_app; simpl; rewrite ?lacks_app; simpl;
        rewrite ?Hkn, ?Hvn, ?He; reflexivity).
  rewrite !fold_left_app. simpl.
  now rewrite (parseLine_extra_fields _ k vs extra Hk Hv).
Qed.

Lemma parseResponse_ignores_extra_fields_witness :
  parseResponse (unlines ["b" +:+ String TAB "2"]
                 +:+ ("a" +:+ String TAB ("1" +:+ String TAB "x y"))
                 +:+ String NL EmptyString)
  = parseResponse (unlines ["b" +:+ String TAB "2"]
                   +:+ ("a" +:+ String TAB "1") +:+ String NL EmptyString).
Proof.
  apply (parseResponse_ignores_extra_fields
           ["b" +:+ String TAB "2"] "a" "1" "x y" EmptyString);
    reflexivity.
Defined.

(** * More about the native integer codec *)

Lemma uintSizeInBytes_4 (plat : Platform) :
  uintSizeInBytes plat = 4 -> 32 <= IntSize plat <= 39.
Proof.
  unfold uintSizeInBytes. intros H.
  Z.to_euclidean_division_equations. lia.
Qed.

Lemma uintSizeInBytes_8 (plat : Platform) :
  uintSizeInBytes plat = 8 -> 64 <= IntSize plat <= 71.
Proof.
  unfold uintSizeInBytes. intros H.
  Z.to_euclidean_division_equations. lia.
Qed.

Lemma uint_range (plat : Platform) (x : Z) :
  0 <= IntSize plat -> 0 <= uint plat x < 2 ^ IntSize plat.
Proof.
  intros H. unfold uint. apply Z.mod_pos_bound.
  apply Z.pow_pos_nonneg; lia.
Qed.

(** [X6] [readNativeUIntFromConn] returns a value without an error
    only when the connection is open, its read delivers as many bytes
    as a [uint] has, with no error, and a [uint] has 4 or 8 bytes; the
    value then fits a [uint]. *)
Theorem readNativeUIntFromConn_value
    (plat : Platform) (conn : nat) (w : World) (v : Z) :
  fst (readNativeUIntFromConn plat conn w) = Ret (v, None) ->
  exists s a rest,
    socks w !! conn = Some s
    /\ read_answers s = a :: rest
    /\ rd_err a = None
    /\ len (received (Z.to_nat (uintSizeInBytes plat)) (rd_data a))
       = uintSizeInBytes plat
    /\ (uintSizeInBytes plat = 4 \/ uintSizeInBytes plat = 8)
    /\ 0 <= v < 2 ^ IntSize plat.
Proof.
  unfold readNativeUIntFromConn. rewrite bind_run. unfold conn_Read.
  destruct (socks w !! conn) as [s|] eqn:Hs; [| discriminate].
  destruct (read_answers s) as [|a rest] eqn:Ha; [discriminate |].
  rewrite length_zeros.
  destruct (rd_err a) as [e|] eqn:He; [discriminate |].
  destruct (len (received _ (rd_data a)) =? uintSizeInBytes plat) eqn:En;
    [| discriminate].
  apply Z.eqb_eq in En. cbn [negb].
  destruct (uintSizeInBytes plat =? 4) eqn:E4.
  - apply Z.eqb_eq in E4. intros [= <-].
    exists s, a, rest. repeat split; auto;
      apply uintSizeInBytes_4 in E4; apply uint_range; lia.
  - destruct (uintSizeInBytes plat =? 8) eqn:E8; [| discriminate].
    apply Z.eqb_eq in E8. intros [= <-].
    exists s, a, rest. repeat split; auto;
      apply uintSizeInBytes_8 in E8; apply uint_range; lia.
Qed.

Lemma readNativeUIntFromConn_value_witness :
  exists s a rest,
    socks (connected (socket_with [[7; 0; 0; 0; 0; 0; 0; 0]])) !! 3%nat
    = Some s
    /\ read_answers s = a :: rest
    /\ rd_err a = None
    /\ len (received (Z.to_nat (uintSizeInBytes linux_amd64)) (rd_data a))
       = uintSizeInBytes linux_amd64
    /\ (uintSizeInBytes linux_amd64 = 4 \/ uintSizeInBytes linux_amd64 = 8)
    /\ 0 <= 7 < 2 ^ IntSize linux_amd64.
Proof.
  apply (readNativeUIntFromConn_value linux_amd64 3
           (connected (socket_with [[7; 0; 0; 0; 0; 0; 0; 0]])) 7).
  vm_compute. reflexivity.
Defined.

(** [X7] A length field that arrives short is an error, not retried:
    when the read delivers, with no error, a number of bytes [n] other
    than the size of a [uint], [readNativeUIntFromConn] returns 0 and
    the error "did not read enough data for native uint" carrying [n]
    and the expected size; the one read has been consumed. *)
Theorem readNativeUIntFromConn_short_read
    (plat : Platform) (conn : nat) (w : World) (s : Socket)
    (a : ReadAnswer) (rest : list ReadAnswer) :
  socks w !! conn = Some s ->
  read_answers s = a :: rest ->
  rd_err a = None ->
  len (received (Z.to_nat (uintSizeInBytes plat)) (rd_data a))
  <> uintSizeInBytes plat ->
  readNativeUIntFromConn plat conn w
  = (Ret (0, Some (ErrShortNativeUInt
                     (len (received (Z.to_nat (uintSizeInBytes plat))
                                    (rd_data a)))
                     (uintSizeInBytes plat))),
     set_socks (<[conn := set_read_answers rest s]> (socks w)) w).
Proof.
  intros Hs Ha He Hn.
  unfold readNativeUIntFromConn. rewrite bind_run. unfold conn_Read.
  rewrite Hs, Ha, length_zeros, He.
  destruct (_ =? uintSizeInBytes plat) eqn:E;
    [apply Z.eqb_eq in E; contradiction | reflexivity].
Qed.

Lemma readNativeUIntFromConn_short_read_witness :
  readNativeUIntFromConn linux_amd64 3
    (connected (socket_with [[7; 0; 0]; [0; 0; 0; 0; 0]]))
  = (Ret (0, Some (ErrShortNativeUInt
                     (len (received (Z.to_nat (uintSizeInBytes linux_amd64))
                                    (rd_data {| rd_data := [7; 0; 0];
                                                rd_err := None |})))
                     (uintSizeInBytes linux_amd64))),
     set_socks
       (<[3%nat := set_read_answers
                     [{| rd_data := [0; 0; 0; 0; 0]; rd_err := None |}]
                     (socket_with [[7; 0; 0]; [0; 0; 0; 0; 0]])]>
          (socks (connected (socket_with [[7; 0; 0]; [0; 0; 0; 0; 0]]))))
       (connected (socket_with [[7; 0; 0]; [0; 0; 0; 0; 0]]))).
Proof.
  apply (readNativeUIntFromConn_short_read linux_amd64 3
           (connected (socket_with [[7; 0; 0]; [0; 0; 0; 0; 0]]))
           (socket_with [[7; 0; 0]; [0; 0; 0; 0; 0]])
           {| rd_data := [7; 0; 0]; rd_err := None |}
           [{| rd_data := [0; 0; 0; 0; 0]; rd_err := None |}]).
  - reflexivity.
  - reflexivity.
  - reflexivity.
  - vm_compute. discriminate.
Defined.

(** [X8] On a machine whose [uint] has neither 4 nor 8 bytes the
    codec refuses to work: [writeNativeUIntToConn] returns the error
    "unsupported system configuration" and leaves the world as it is
    (nothing is written), and [readNativeUIntFromConn] never returns a
    value without an error. *)
Theorem native_uint_unsupported
    (plat : Platform) (conn : nat) (value : Z) (w : World) :
  uintSizeInBytes plat <> 4 ->
  uintSizeInBytes plat <> 8 ->
  writeNativeUIntToConn plat conn value w
  = (Ret (0, Some ErrUnsupportedSystem), w)
  /\ forall v, fst (readNativeUIntFromConn plat conn w) <> Ret (v, None).
Proof.
  intros H4 H8.
  apply Z.eqb_neq in H4 as E4. apply Z.eqb_neq in H8 as E8. split.
  - unfold writeNativeUIntToConn. now rewrite E4, E8.
  - intros v. unfold readNativeUIntFromConn. rewrite bind_run.
    unfold conn_Read.
    destruct (socks w !! conn) as [s|]; [| discriminate].
    destruct (read_answers s) as [|a rest]; [discriminate |].
    destruct (rd_err a); [discriminate |].
    destruct (negb _); [discriminate |].
    rewrite E4, E8. discriminate.
Qed.

Lemma native_uint_unsupported_witness :
  writeNativeUIntToConn sixteen_bit 3 7 (connected (socket_with [[7; 0]]))
  = (Ret (0, Some ErrUnsupportedSystem), connected (socket_with [[7; 0]]))
  /\ forall v,
       fst (readNativeUIntFromConn sixteen_bit 3
              (connected (socket_with [[7; 0]])))
       <> Ret (v, None).
Proof.
  apply (native_uint_unsupported sixteen_bit 3 7
           (connected (socket_with [[7; 0]])));
    vm_compute; discriminate.
Defined.

(** ** From bytes to the value and back *)

Lemma byte_high (b i : Z) : 0 <= b < 256 -> 8 <= i -> Z.testbit b i = false.
Proof.
  intros Hb Hi. rewrite <- (Z.mod_small b (2 ^ 8)) by exact Hb.
  apply Z.mod_pow2_bits_high. lia.
Qed.

Lemma byte_of_range (x : Z) : 0 <= byte_of x < 256.
Proof.
  unfold byte_of. change 255 with (Z.ones 8).
  rewrite Z.land_ones by lia. apply Z.mod_pos_bound. reflexivity.
Qed.

(** The bits of a byte slice read as an integer: each bit of the
    result comes from one byte. *)
Ltac byte_bits i :=
  repeat match goal with
         | |- context [Z.testbit ?b ?idx] =>
             first [ rewrite (byte_high b idx) by lia
                   | rewrite (Z.testbit_neg_r b idx) by lia
                   | progress (replace idx with i by lia) ]
         end;
  rewrite ?orb_false_r, ?orb_false_l, ?andb_true_r, ?andb_false_r;
  try reflexivity.

Ltac byte_extract :=
  let i := fresh "i" in
  let Hi := fresh "Hi" in
  apply Z.bits_inj'; intros i Hi; unfold byte_of;
  rewrite Z.land_spec, ?Z.shiftr_spec by lia;
  rewrite !Z.lor_spec, !Z.shiftl_spec by lia;
  change 255 with (Z.ones 8); rewrite Z.testbit_ones_nonneg by lia;
  destruct (Z.ltb_spec i 8); byte_bits i.

Ltac bytes_back :=
  f_equal; repeat (f_equal; [byte_extract |]); try (f_equal; byte_extract);
  try reflexivity.

Lemma PutUint32_Uint32 (order : ByteOrder) (buf : list Z) (b0 b1 b2 b3 : Z) :
  0 <= b0 < 256 -> 0 <= b1 < 256 -> 0 <= b2 < 256 -> 0 <= b3 < 256 ->
  PutUint32 order buf (Uint32 order [b0; b1; b2; b3])
  = [b0; b1; b2; b3] ++ skipn 4 buf.
Proof.
  intros H0 H1 H2 H3. unfold PutUint32, Uint32, at_. cbn [nth].
  destruct order; bytes_back.
Qed.

Lemma PutUint64_Uint64 (order : ByteOrder) (buf : list Z)
    (b0 b1 b2 b3 b4 b5 b6 b7 : Z) :
  0 <= b0 < 256 -> 0 <= b1 < 256 -> 0 <= b2 < 256 -> 0 <= b3 < 256 ->
  0 <= b4 < 256 -> 0 <= b5 < 256 -> 0 <= b6 < 256 -> 0 <= b7 < 256 ->
  PutUint64 order buf (Uint64 order [b0; b1; b2; b3; b4; b5; b6; b7])
  = [b0; b1; b2; b3; b4; b5; b6; b7] ++ skipn 8 buf.
Proof.
  intros H0 H1 H2 H3 H4 H5 H6 H7. unfold PutUint64, Uint64, at_. cbn [nth].
  destruct order; bytes_back.
Qed.

(** The value read from 4 (or 8) bytes fits 32 (or 64) bits. *)
Lemma Uint32_range (order : ByteOrder) (b0 b1 b2 b3 : Z) :
  0 <= b0 < 256 -> 0 <= b1 < 256 -> 0 <= b2 < 256 -> 0 <= b3 < 256 ->
  Uint32 order [b0; b1; b2; b3] mod 2 ^ 32 = Uint32 order [b0; b1; b2; b3].
Proof.
  intros H0 H1 H2 H3. rewrite <- Z.land_ones by lia.
  unfold Uint32, at_. cbn [nth].
  destruct order; apply Z.bits_inj'; intros i Hi;
    rewrite Z.land_spec, Z.testbit_ones_nonneg by lia;
    rewrite !Z.lor_spec, !Z.shiftl_spec by lia;
    (destruct (Z.ltb_spec i 32); [now rewrite andb_true_r |]);
    byte_bits i.
Qed.

Lemma Uint64_range (order : ByteOrder) (b0 b1 b2 b3 b4 b5 b6 b7 : Z) :
  0 <= b0 < 256 -> 0 <= b1 < 256 -> 0 <= b2 < 256 -> 0 <= b3 < 256 ->
  0 <= b4 < 256 -> 0 <= b5 < 256 -> 0 <= b6 < 256 -> 0 <= b7 < 256 ->
  Uint64 order [b0; b1; b2; b3; b4; b5; b6; b7] mod 2 ^ 64
  = Uint64 order [b0; b1; b2; b3; b4; b5; b6; b7].
Proof.
  intros H0 H1 H2 H3 H4 H5 H6 H7. rewrite <- Z.land_ones by lia.
  unfold Uint64, at_. cbn [nth].
  destruct order; apply Z.bits_inj'; intros i Hi;
    rewrite Z.land_spec, Z.testbit_ones_nonneg by lia;
    rewrite !Z.lor_spec, !Z.shiftl_spec by lia;
    (destruct (Z.ltb_spec i 64); [now rewrite andb_true_r |]);
    byte_bits i.
Qed.

Lemma received_bytes (k : nat) (data : list Z) :
  Forall (fun b => 0 <= b < 256) (received k data).
Proof.
  unfold received. apply List.Forall_forall. intros b Hb.
  apply in_map_iff in Hb as (x & <- & _). apply byte_of_range.
Qed.

(** [X9] The codec loses nothing in the other direction either: when
    a read delivers as many bytes as a [uint] has,
    [readNativeUIntFromConn] returns a value, and
    [writeNativeUIntToConn] of that value puts the same bytes on a
    connection. *)
Theorem native_uint_bytes_round_trip
    (plat : Platform) (rconn : nat) (rw : World) (rs : Socket)
    (a : ReadAnswer) (rrest : list ReadAnswer) :
  IntSize plat = 32 \/ IntSize plat = 64 ->
  socks rw !! rconn = Some rs ->
  read_answers rs = a :: rrest ->
  rd_err a = None ->
  len (received (Z.to_nat (uintSizeInBytes plat)) (rd_data a))
  = uintSizeInBytes plat ->
  exists v,
    fst (readNativeUIntFromConn plat rconn rw) = Ret (v, None)
    /\ forall (wconn : nat) (ww : World) (ws : Socket)
              (wrest : list WriteAnswer),
        socks ww !! wconn = Some ws ->
        write_answers ws = WriteOk :: wrest ->
        sent (snd (writeNativeUIntToConn plat wconn v ww))
        = sent ww
          ++ [received (Z.to_nat (uintSizeInBytes plat)) (rd_data a)].
Proof.
  intros Hsize Hs Ha He Hn.
  pose proof (received_bytes (Z.to_nat (uintSizeInBytes plat)) (rd_data a))
    as Hb.
  unfold readNativeUIntFromConn. rewrite bind_run. unfold conn_Read.
  rewrite Hs, Ha, length_zeros, He. world_simpl.
  rewrite Hn, Z.eqb_refl. cbn [negb].
  set (got := received (Z.to_nat (uintSizeInBytes plat)) (rd_data a)) in *.
  unfold len in Hn.
  rewrite getEndianness_native.
  destruct Hsize as [E | E].
  - assert (E4 : uintSizeInBytes plat = 4)
      by (unfold uintSizeInBytes; now rewrite E).
    rewrite E4 in *. cbn [Z.eqb Pos.eqb].
    destruct got as [|b0 [|b1 [|b2 [|b3 [|]]]]]; simpl in Hn; try lia.
    repeat match goal with
           | H : Forall _ (_ :: _) |- _ => inversion H; clear H; subst
           end.
    eexists. split; [reflexivity |].
    intros wconn ww ws wrest Hws Hwa.
    rewrite (writeNativeUIntToConn_sends plat wconn _ ww ws wrest
               (or_introl E) Hws Hwa).
    world_simpl. do 2 f_equal.
    unfold nativeUIntBytes. rewrite E4. cbn [Z.eqb Pos.eqb].
    rewrite getEndianness_native. unfold uint, uint32. rewrite E.
    cbn [length skipn app].
    rewrite Z.mod_mod by lia. rewrite Uint32_range by assumption.
    now rewrite PutUint32_Uint32 by assumption.
  - assert (E8 : uintSizeInBytes plat = 8)
      by (unfold uintSizeInBytes; now rewrite E).
    rewrite E8 in *. cbn [Z.eqb Pos.eqb].
    destruct got as [|b0 [|b1 [|b2 [|b3 [|b4 [|b5 [|b6 [|b7 [|]]]]]]]]];
      simpl in Hn; try lia.
    repeat match goal with
           | H : Forall _ (_ :: _) |- _ => inversion H; clear H; subst
           end.
    eexists. split; [reflexivity |].
    intros wconn ww ws wrest Hws Hwa.
    rewrite (writeNativeUIntToConn_sends plat wconn _ ww ws wrest
               (or_intror E) Hws Hwa).
    world_simpl. do 2 f_equal.
    unfold nativeUIntBytes. rewrite E8. cbn [Z.eqb Pos.eqb].
    rewrite getEndianness_native. unfold uint, uint64. rewrite E.
    cbn [length skipn app].
    rewrite Z.mod_mod by lia. rewrite Uint64_range by assumption.
    now rewrite PutUint64_Uint64 by assumption.
Qed.

Lemma native_uint_bytes_round_trip_witness :
  exists v,
    fst (readNativeUIntFromConn linux_mips 3
           (connected (socket_with [[1; 2; 3; 4]])))
    = Ret (v, None)
    /\ forall (wconn : nat) (ww : World) (ws : Socket)
              (wrest : list WriteAnswer),
        socks ww !! wconn = Some ws ->
        write_answers ws = WriteOk :: wrest ->
        sent (snd (writeNativeUIntToConn linux_mips wconn v ww))
        = sent ww
          ++ [received (Z.to_nat (uintSizeInBytes linux_mips))
                (rd_data {| rd_data := [1; 2; 3; 4]; rd_err := None |})].
Proof.
  apply (native_uint_bytes_round_trip linux_mips 3
           (connected (socket_with [[1; 2; 3; 4]]))
           (socket_with [[1; 2; 3; 4]])
           {| rd_data := [1; 2; 3; 4]; rd_err := None |} []).
  - left. reflexivity.
  - reflexivity.
  - reflexivity.
  - reflexivity.
  - reflexivity.
Defined.

(** * More about the drivers *)

(** ** Connections are closed *)

Lemma conn_SetDeadline_keeps_others c : keeps (others c) (conn_SetDeadline c).
Proof. unfold conn_SetDeadline. prim. Qed.

Lemma conn_Write_keeps_others c b : keeps (others c) (conn_Write c b).
Proof.
  intros w. unfold conn_Write, others.
  destruct (socks w !! c) as [s|]; [| reflexivity].
  destruct (write_answers s) as [|[|n e] rest]; world_simpl;
    [reflexivity | apply delete_insert_eq | apply delete_insert_eq].
Qed.

Lemma conn_Read_keeps_others c b : keeps (others c) (conn_Read c b).
Proof.
  intros w. unfold conn_Read, others.
  destruct (socks w !! c) as [s|]; [| reflexivity].
  destruct (read_answers s) as [|a rest]; world_simpl;
    [reflexivity | apply delete_insert_eq].
Qed.

Lemma conn_Close_keeps_others c : keeps (others c) (conn_Close c).
Proof.
  intros w. unfold conn_Close, others.
  destruct (socks w !! c) as [s|]; world_simpl; [| reflexivity].
  apply delete_delete_eq.
Qed.

Lemma acc_AddFields_keeps_others c m f t :
  keeps (others c) (acc_AddFields m f t).
Proof. unfold acc_AddFields. prim. Qed.

Lemma make_bytes_keeps_others c plat n : keeps (others c) (make_bytes plat n).
Proof. unfold make_bytes, ret, panic. prim. Qed.

#[local] Hint Resolve conn_SetDeadline_keeps_others conn_Write_keeps_others
  conn_Read_keeps_others conn_Close_keeps_others acc_AddFields_keeps_others
  make_bytes_keeps_others : frames.

Lemma writeNativeUIntToConn_keeps_others plat c v :
  keeps (others c) (writeNativeUIntToConn plat c v).
Proof. unfold writeNativeUIntToConn. frame. Qed.

Lemma readNativeUIntFromConn_keeps_others plat c :
  keeps (others c) (readNativeUIntFromConn plat c).
Proof. unfold readNativeUIntFromConn. frame. Qed.

#[local] Hint Resolve writeNativeUIntToConn_keeps_others
  readNativeUIntFromConn_keeps_others : frames.

(** After [conn.Close()] the connection is not open, whether it was
    before or not. *)
Lemma conn_Close_socks (c : nat) (w : World) :
  socks (snd (conn_Close c w)) = others c w.
Proof.
  unfold conn_Close, others. destruct (socks w !! c) as [s|] eqn:E;
    world_simpl; [reflexivity |].
  symmetry. now apply delete_id.
Qed.

Lemma defer_Close_socks {A} (c : nat) (body : M A) (w : World) :
  keeps (others c) body ->
  socks (snd (defer (conn_Close c) body w)) = others c w.
Proof.
  intros Hb. unfold defer. specialize (Hb w).
  destruct (body w) as [r w1]. cbn [snd] in Hb.
  pose proof (conn_Close_socks c w1) as Hc.
  destruct (conn_Close c w1) as [[e | msg] w2]; cbn [snd] in *; congruence.
Qed.

(** [X10] The stream exchange leaves no connection behind: whatever
    the environment does, and also when the exchange panics, the
    connections open afterwards are those that were open before. *)
Theorem gatherFromV3Server_closes
    (plat : Platform) (address : string) (w : World) :
  socks w !! next_fd w = None ->
  socks (snd (gatherFromV3Server plat address w)) = socks w.
Proof.
  intros Hfresh. unfold gatherFromV3Server. rewrite bind_run.
  unfold net_Dial.
  destruct (dial_src w) as [| [s | b e] ds]; world_simpl;
    try reflexivity.
  rewrite defer_Close_socks by frame.
  unfold others. world_simpl.
  rewrite delete_insert_eq. now apply delete_id.
Qed.

Lemma gatherFromV3Server_closes_witness :
  socks (snd (gatherFromV3Server linux_amd64 "/run/pdns.controlsocket"
                (world_with [DialOk (socket_with [[0; 0; 0; 0];
                                                  [8; 0; 0; 0; 0; 0; 0; 0];
                                                  two_metrics])])))
  = socks (world_with [DialOk (socket_with [[0; 0; 0; 0];
                                            [8; 0; 0; 0; 0; 0; 0; 0];
                                            two_metrics])]).
Proof.
  apply (gatherFromV3Server_closes linux_amd64 "/run/pdns.controlsocket").
  reflexivity.
Defined.

(** ** The stream exchange, when it succeeds *)

(** [X11] The stream exchange that goes well.  When the dial, the
    deadline and the writes succeed, a status arrives, the length
    read is [L] (not zero, and a length the runtime can allocate) and
    the body read delivers exactly [L] bytes with no error, the
    exchange returns what closing the connection returns, and adds to
    the accumulator one record: the measurement "powerdns_recursor",
    the decoding of those [L] bytes as fields, and the address of the
    server as the tag "server". *)
Theorem gatherFromV3Server_success
    (plat : Platform) (address : string) (w : World) (s : Socket)
    (ds : list DialAnswer) (ws : list WriteAnswer)
    (r_status r_len r_body : ReadAnswer) (rs : list ReadAnswer) (L : Z) :
  IntSize plat = 32 \/ IntSize plat = 64 ->
  dial_src w = DialOk s :: ds ->
  deadline_answer s = None ->
  write_answers s = WriteOk :: WriteOk :: WriteOk :: ws ->
  read_answers s = r_status :: r_len :: r_body :: rs ->
  rd_err r_status = None ->
  received 4 (rd_data r_status) <> [] ->
  (forall conn w0 s0 rest,
      socks w0 !! conn = Some s0 -> read_answers s0 = r_len :: rest ->
      fst (readNativeUIntFromConn plat conn w0) = Ret (L, None)) ->
  0 < L <= 2 ^ (IntSize plat - 1) - 1 ->
  L <= maxAlloc plat ->
  rd_err r_body = None ->
  len (received (Z.to_nat L) (rd_data r_body)) = L ->
  exists w',
    gatherFromV3Server plat address w = (Ret (close_answer s), w')
    /\ acc w'
       = acc w
         ++ [AddFields "powerdns_recursor"
               (parseResponse
                  (string_of_bytes (received (Z.to_nat L) (rd_data r_body))))
               {["server" := address]}].
Proof.
  intros Hsize Hdial Hdl Hwr Hrd Hst Hgot Hlen HL Halloc Herr Hfull.
  v3_request Hsize Hdial Hdl Hwr.
  v3_status Hrd Hst Hgot.
  v3_length Hlen.
  destruct (L =? 0) eqn:E0; [apply Z.eqb_eq in E0; lia | clear E0].
  rewrite bind_run. unfold make_bytes.
  destruct ((0 <=? L) && (L <=? 2 ^ (IntSize plat - 1) - 1)
            && (L <=? maxAlloc plat)) eqn:Emk.
  2:{ apply andb_false_iff in Emk as [Emk | Emk];
        [apply andb_false_iff in Emk as [Emk | Emk] |];
        (apply Z.leb_gt in Emk; lia). }
  unfold ret at 1.
  rewrite bind_run. unfold conn_Read at 1. world_simpl.
  rewrite lookup_insert_eq. world_simpl. rewrite length_zeros, Herr.
  set (got := received (Z.to_nat L) (rd_data r_body)) in *.
  assert (Hu : uint plat (len got) = L).
  { rewrite Hfull. unfold uint. apply Z.mod_small. split; [lia |].
    assert (2 ^ (IntSize plat - 1) < 2 ^ IntSize plat).
    { destruct Hsize as [-> | ->]; reflexivity. }
    lia. }
  rewrite Hu, Z.eqb_refl. cbn [negb].
  assert (Hbuf : got ++ skipn (length got) (zeros L) = got).
  { rewrite skipn_all2, app_nil_r; [reflexivity |].
    rewrite length_zeros. unfold len in Hfull. lia. }
  rewrite Hbuf.
  rewrite bind_run. unfold acc_AddFields. world_simpl.
  unfold conn_Close at 1. world_simpl. rewrite lookup_insert_eq. world_simpl.
  unfold conn_Close. world_simpl. rewrite lookup_delete_eq.
  eexists. split; reflexivity.
Qed.

Lemma gatherFromV3Server_success_witness :
  exists w',
    gatherFromV3Server linux_amd64 "/run/pdns.controlsocket"
      (world_with [DialOk (socket_with [[0; 0; 0; 0];
                                        [8; 0; 0; 0; 0; 0; 0; 0];
                                        two_metrics])])
    = (Ret (close_answer (socket_with [[0; 0; 0; 0];
                                       [8; 0; 0; 0; 0; 0; 0; 0];
                                       two_metrics])), w')
    /\ acc w'
       = acc (world_with [DialOk (socket_with [[0; 0; 0; 0];
                                               [8; 0; 0; 0; 0; 0; 0; 0];
                                               two_metrics])])
         ++ [AddFields "powerdns_recursor"
               (parseResponse
                  (string_of_bytes
                     (received (Z.to_nat 8)
                        (rd_data {| rd_data := two_metrics;
                                    rd_err := None |}))))
               {["server" := "/run/pdns.controlsocket"]}].
Proof.
  apply (gatherFromV3Server_success linux_amd64 "/run/pdns.controlsocket"
           _ (socket_with [[0; 0; 0; 0]; [8; 0; 0; 0; 0; 0; 0; 0];
                           two_metrics]) [] []
           {| rd_data := [0; 0; 0; 0]; rd_err := None |}
           {| rd_data := [8; 0; 0; 0; 0; 0; 0; 0]; rd_err := None |}
           {| rd_data := two_metrics; rd_err := None |} [] 8).
  - right. reflexivity.
  - reflexivity.
  - reflexivity.
  - reflexivity.
  - reflexivity.
  - reflexivity.
  - vm_compute. discriminate.
  - intros conn w0 s0 rest H1 H2.
    unfold readNativeUIntFromConn. rewrite bind_run. unfold conn_Read.
    rewrite H1, H2. reflexivity.
  - vm_compute. repeat split; discriminate.
  - vm_compute. discriminate.
  - reflexivity.
  - reflexivity.
Defined.

(** ** The stream exchange, when it fails *)

(** [X12] No status, no exchange: when the request has gone out and
    the read of the status delivers no byte and no error, the stream
    exchange fails with the error "no status code received" and adds
    nothing to the accumulator. *)
Theorem gatherFromV3Server_no_status
    (plat : Platform) (address : string) (w : World) (s : Socket)
    (ds : list DialAnswer) (ws : list WriteAnswer)
    (r_status : ReadAnswer) (rs : list ReadAnswer) :
  IntSize plat = 32 \/ IntSize plat = 64 ->
  dial_src w = DialOk s :: ds ->
  deadline_answer s = None ->
  write_answers s = WriteOk :: WriteOk :: WriteOk :: ws ->
  read_answers s = r_status :: rs ->
  rd_err r_status = None ->
  received 4 (rd_data r_status) = [] ->
  exists w',
    gatherFromV3Server plat address w = (Ret (Some ErrNoStatusCode), w')
    /\ acc w' = acc w.
Proof.
  intros Hsize Hdial Hdl Hwr Hrd Hst Hgot.
  v3_request Hsize Hdial Hdl Hwr.
  rewrite bind_run. unfold conn_Read at 1. world_simpl.
  rewrite lookup_insert_eq. world_simpl. rewrite Hrd. world_simpl.
  rewrite Hst. change (length (zeros 4)) with 4%nat. rewrite Hgot.
  change (len (@nil Z)) with 0. cbn [Z.eqb]. unfold ret.
  match goal with
  | |- context [conn_Close ?c ?W] =>
      destruct (conn_Close_frame c W) as (e & w' & -> & Ha & _)
  end.
  exists w'. split; [reflexivity |]. rewrite Ha. reflexivity.
Qed.

Lemma gatherFromV3Server_no_status_witness :
  exists w',
    gatherFromV3Server linux_amd64 "/run/pdns.controlsocket"
      (world_with [DialOk (socket_with [[]])])
    = (Ret (Some ErrNoStatusCode), w')
    /\ acc w' = acc (world_with [DialOk (socket_with [[]])]).
Proof.
  apply (gatherFromV3Server_no_status linux_amd64 "/run/pdns.controlsocket"
           _ (socket_with [[]]) [] []
           {| rd_data := []; rd_err := None |} []).
  - right. reflexivity.
  - reflexivity.
  - reflexivity.
  - reflexivity.
  - reflexivity.
  - reflexivity.
  - reflexivity.
Defined.

(** [X13] A length the runtime cannot allocate stops the exchange
    with a panic, not with an error: when the length read is larger
    than the largest [int], or than the largest allocation, the
    allocation of the body panics; nothing is added to the
    accumulator. *)
Theorem gatherFromV3Server_oversized_length
    (plat : Platform) (address : string) (w : World) (s : Socket)
    (ds : list DialAnswer) (ws : list WriteAnswer)
    (r_status r_len : ReadAnswer) (rs : list ReadAnswer) (L : Z) :
  IntSize plat = 32 \/ IntSize plat = 64 ->
  dial_src w = DialOk s :: ds ->
  deadline_answer s = None ->
  write_answers s = WriteOk :: WriteOk :: WriteOk :: ws ->
  read_answers s = r_status :: r_len :: rs ->
  rd_err r_status = None ->
  received 4 (rd_data r_status) <> [] ->
  (forall conn w0 s0 rest,
      socks w0 !! conn = Some s0 -> read_answers s0 = r_len :: rest ->
      fst (readNativeUIntFromConn plat conn w0) = Ret (L, None)) ->
  2 ^ (IntSize plat - 1) - 1 < L \/ maxAlloc plat < L ->
  L <> 0 ->
  exists w',
    gatherFromV3Server plat address w
    = (Panic "runtime error: makeslice: len out of range", w')
    /\ acc w' = acc w.
Proof.
  intros Hsize Hdial Hdl Hwr Hrd Hst Hgot Hlen HL H0.
  v3_request Hsize Hdial Hdl Hwr.
  v3_status Hrd Hst Hgot.
  v3_length Hlen.
  destruct (L =? 0) eqn:E0; [apply Z.eqb_eq in E0; contradiction | clear E0].
  rewrite bind_run. unfold make_bytes.
  destruct ((0 <=? L) && (L <=? 2 ^ (IntSize plat - 1) - 1)
            && (L <=? maxAlloc plat)) eqn:Emk.
  { apply andb_prop in Emk as [Emk E3]. apply andb_prop in Emk as [E1 E2].
    apply Z.leb_le in E2, E3. lia. }
  unfold panic.
  match goal with
  | |- context [conn_Close ?c ?W] =>
      destruct (conn_Close_frame c W) as (e & w' & -> & Ha & _)
  end.
  exists w'. split; [reflexivity |]. rewrite Ha. reflexivity.
Qed.

Lemma gatherFromV3Server_oversized_length_witness :
  exists w',
    gatherFromV3Server linux_amd64 "/run/pdns.controlsocket"
      (world_with [DialOk (socket_with [[0; 0; 0; 0];
                                        [255; 255; 255; 255;
                                         255; 255; 255; 255]])])
    = (Panic "runtime error: makeslice: len out of range", w')
    /\ acc w' = acc (world_with [DialOk (socket_with
                                   [[0; 0; 0; 0];
                                    [255; 255; 255; 255;
                                     255; 255; 255; 255]])]).
Proof.
  apply (gatherFromV3Server_oversized_length linux_amd64
           "/run/pdns.controlsocket"
           _ (socket_with [[0; 0; 0; 0];
                           [255; 255; 255; 255; 255; 255; 255; 255]]) [] []
           {| rd_data := [0; 0; 0; 0]; rd_err := None |}
           {| rd_data := [255; 255; 255; 255; 255; 255; 255; 255];
              rd_err := None |} [] (2 ^ 64 - 1)).
  - right. reflexivity.
  - reflexivity.
  - reflexivity.
  - reflexivity.
  - reflexivity.
  - reflexivity.
  - vm_compute. discriminate.
  - intros conn w0 s0 rest H1 H2.
    unfold readNativeUIntFromConn. rewrite bind_run. unfold conn_Read.
    rewrite H1, H2. reflexivity.
  - left. reflexivity.
  - discriminate.
Defined.

(** ** What an exchange adds to the accumulator *)

Lemma reports_keeps {A} (address : string) (m : M A) :
  keeps acc m -> reports address m.
Proof. intros H w. left. apply H. Qed.

Lemma reports_bind_keeps {A B} (address : string) (m : M A) (k : A -> M B) :
  keeps acc m -> (forall a, reports address (k a)) ->
  reports address (bind m k).
Proof.
  intros Hm Hk w. unfold bind. specialize (Hm w).
  destruct (m w) as [[a | msg] w1]; cbn [snd] in *; [| now left].
  rewrite <- Hm. apply Hk.
Qed.

Lemma reports_AddFields_then {B} (address : string)
    (fields : gmap string Z) (k : unit -> M B) :
  (forall a, keeps acc (k a)) ->
  reports address
    (bind (acc_AddFields measurement fields {["server" := address]}) k).
Proof.
  intros Hk w. right. exists fields.
  rewrite bind_run. unfold acc_AddFields. now rewrite Hk.
Qed.

Lemma reports_defer {A B} (address : string) (cleanup : M B) (body : M A) :
  keeps acc cleanup -> reports address body ->
  reports address (defer cleanup body).
Proof.
  intros Hc Hb w. unfold defer. specialize (Hb w).
  destruct (body w) as [r w1]. specialize (Hc w1).
  destruct (cleanup w1) as [[b | msg] w2]; cbn [snd] in *;
    now rewrite Hc.
Qed.

(** A computation built from calls that leave the accumulator alone,
    with at most one [AddFields] for the address at its end. *)
Ltac report :=
  repeat first
    [ apply reports_AddFields_then; intros ?; solve [frame]
    | apply reports_defer; [solve [frame] |]
    | apply reports_bind_keeps; [solve [frame] | intros ?]
    | apply reports_keeps; solve [frame]
    | match goal with
      | |- reports _ (match ?x with _ => _ end) => destruct x
      end ].

Lemma net_Dial_keeps_acc n a : keeps acc (net_Dial n a).
Proof. unfold net_Dial, open_socket. prim. Qed.

Lemma writeNativeUIntToConn_keeps_acc plat c v :
  keeps acc (writeNativeUIntToConn plat c v).
Proof. unfold writeNativeUIntToConn. frame. Qed.

#[local] Hint Resolve net_Dial_keeps_acc writeNativeUIntToConn_keeps_acc
  : frames.

Lemma gatherFromV3Server_reports (plat : Platform) (address : string) :
  reports address (gatherFromV3Server plat address).
Proof. unfold gatherFromV3Server. report. Qed.

(** [X14] Whatever the environment does, the stream exchange adds to
    the accumulator nothing, or exactly one record, of the measurement
    "powerdns_recursor" and tagged with the address it was given; it
    never adds an error. *)
Theorem gatherFromV3Server_one_record
    (plat : Platform) (address : string) (w : World) :
  acc (snd (gatherFromV3Server plat address w)) = acc w
  \/ exists fields,
       acc (snd (gatherFromV3Server plat address w))
       = acc w ++ [AddFields "powerdns_recursor" fields
                             {["server" := address]}].
Proof. apply gatherFromV3Server_reports. Qed.

Section LegacyMore.

Variable filepath_Join : list string -> string.

Lemma gatherServer_reports (p : PowerdnsRecursor) (address : string)
    (newProtocol : bool) :
  reports address (gatherServer filepath_Join p address newProtocol).
Proof. unfold gatherServer. report. Qed.

(** [X15] Whatever the environment does, the datagram exchange adds
    to the accumulator nothing, or exactly one record, of the
    measurement "powerdns_recursor" and tagged with the address it was
    given; it never adds an error. *)
Theorem gatherServer_one_record (p : PowerdnsRecursor) (address : string)
    (newProtocol : bool) (w : World) :
  acc (snd (gatherServer filepath_Join p address newProtocol w)) = acc w
  \/ exists fields,
       acc (snd (gatherServer filepath_Join p address newProtocol w))
       = acc w ++ [AddFields "powerdns_recursor" fields
                             {["server" := address]}].
Proof. apply gatherServer_reports. Qed.

End LegacyMore.

(** ** The datagram exchange, step by step *)

Lemma os_Chmod_succeeds (name : string) (mode : Z) (w : World) :
  hd None (chmod_src w) = None ->
  name ∈ files w ->
  os_Chmod name mode w = (Ret None, set_chmod_src (tl (chmod_src w)) w)
  \/ os_Chmod name mode w = (Ret None, w).
Proof.
  intros Hc Hin. unfold os_Chmod.
  destruct (chmod_src w) as [| c cs]; cbn [hd tl] in *.
  - right. now rewrite decide_True.
  - left. now subst c.
Qed.

Lemma rand_Int63_run (w : World) :
  exists x w0,
    rand_Int63 w = (Ret x, w0)
    /\ x = hd 0 (rand_src w)
    /\ dial_src w0 = dial_src w /\ chmod_src w0 = chmod_src w
    /\ sent w0 = sent w /\ acc w0 = acc w /\ socks w0 = socks w
    /\ next_fd w0 = next_fd w /\ files w0 = files w.
Proof.
  unfold rand_Int63. destruct (rand_src w); eexists _, _; repeat split.
Qed.

(** The datagram exchange up to its deadline: the random number, the
    dial, the chmod and the deadline, all successful.  Leaves two
    goals, one per way the chmod answer was found. *)
Ltac legacy_open Hdial Hchmod Hdl w0 P :=
  unfold gatherServer; rewrite bind_run;
  let x := fresh "x" in
  let Hx := fresh "Hx" in
  let Hd0 := fresh "Hd0" in
  let Hc0 := fresh "Hc0" in
  let Hs0 := fresh "Hs0" in
  let Ha0 := fresh "Ha0" in
  let Hk0 := fresh "Hk0" in
  let Hn0 := fresh "Hn0" in
  let Hf0 := fresh "Hf0" in
  match goal with
  | |- context [rand_Int63 ?w] =>
      destruct (rand_Int63_run w)
        as (x & w0 & -> & Hx & Hd0 & Hc0 & Hs0 & Ha0 & Hk0 & Hn0 & Hf0);
      rewrite <- Hd0 in Hdial; rewrite <- Hc0 in Hchmod;
      rewrite <- ?Hs0, <- ?Ha0, <- ?Hk0, <- ?Hn0, <- ?Hf0
  end;
  match goal with
  | |- context [os_Remove ?path] => set (P := path)
  end;
  rewrite !ResolveUnixAddr_unixgram;
  unfold defer at 1; rewrite bind_run;
  unfold net_DialUnix, open_socket; rewrite Hdial; world_simpl;
  rewrite bind_run;
  match goal with
  | |- context [os_Chmod ?n ?m ?W] =>
      destruct (os_Chmod_succeeds n m W)
        as [-> | ->];
      [ world_simpl; exact Hchmod
      | world_simpl; apply elem_of_union_l, elem_of_singleton; reflexivity
      | | ]
  end;
  unfold defer at 1; rewrite bind_run; unfold conn_SetDeadline;
  world_simpl; rewrite lookup_insert_eq, Hdl.

Lemma ret_run {A} (a : A) (w : World) : ret a w = (Ret a, w).
Proof. reflexivity. Qed.

(** The write of the command in the old protocol, successful. *)
Ltac legacy_command Hwr :=
  rewrite bind_run, ret_run; cbv beta iota;
  rewrite bind_run; unfold conn_Write at 1; world_simpl;
  rewrite lookup_insert_eq, Hwr; world_simpl;
  rewrite bind_run, ret_run; cbv beta iota.

Section LegacySteps.

Variable filepath_Join : list string -> string.

(** [X16] The request of the old protocol: with the protocol flag
    off, when the dial, the chmod, the deadline and the write succeed,
    the datagram exchange sends one datagram, "get-all" followed by a
    line break, whatever is answered. *)
Theorem gatherServer_old_protocol_request
    (p : PowerdnsRecursor) (address : string) (w : World) (s : Socket)
    (ds : list DialAnswer) (ws : list WriteAnswer) :
  dial_src w = DialOk s :: ds ->
  hd None (chmod_src w) = None ->
  deadline_answer s = None ->
  write_answers s = WriteOk :: ws ->
  sent (snd (gatherServer filepath_Join p address false w))
  = sent w ++ [[103; 101; 116; 45; 97; 108; 108; 10]].
Proof.
  intros Hdial Hchmod Hdl Hwr.
  legacy_open Hdial Hchmod Hdl w0 P.
  all: legacy_command Hwr.
  all: match goal with
       | |- context [bind ?m ?k ?W] =>
           change (sent (snd (defer (os_Remove P)
                                (defer (conn_Close (next_fd w0)) (bind m k))
                                W))
                   = sent w0 ++ [[103; 101; 116; 45; 97; 108; 108; 10]]);
           assert (Hk : keeps sent
                          (defer (os_Remove P)
                             (defer (conn_Close (next_fd w0)) (bind m k))))
             by frame;
           rewrite (Hk W)
       end;
    world_simpl; reflexivity.
Qed.

End LegacySteps.

Lemma gatherServer_old_protocol_request_witness :
  sent (snd (gatherServer join_plain plugin_three "/run/a.sock" false
               (world_with [DialOk (socket_with [two_metrics])])))
  = sent (world_with [DialOk (socket_with [two_metrics])])
    ++ [[103; 101; 116; 45; 97; 108; 108; 10]].
Proof.
  apply (gatherServer_old_protocol_request join_plain plugin_three "/run/a.sock"
           (world_with [DialOk (socket_with [two_metrics])])
           (socket_with [two_metrics]) [] [WriteOk; WriteOk]);
    reflexivity.
Defined.


(** ** The zero bytes after the reply *)

Lemma last_line_break (s : string) :
  lacks NL s = true
  \/ exists a b, s = a +:+ String NL b /\ lacks NL b = true.
Proof.
  induction s as [|c s [IH | (a & b & -> & Hb)]].
  - now left.
  - destruct (Ascii.eqb c NL) eqn:E.
    + right. exists EmptyString, s. apply Ascii.eqb_eq in E. now subst c.
    + left. simpl. now rewrite E, IH.
  - right. exists (String c a), b. now rewrite append_cons.
Qed.

(** Text with no line break, added at the end of a text, changes
    nothing in its decoding. *)
Lemma parseResponse_padding (s pad : string) :
  lacks NL pad = true -> parseResponse (s +:+ pad) = parseResponse s.
Proof.
  intros Hp. rewrite !parseResponse_fold. f_equal.
  destruct (last_line_break s) as [Hs | (a & b & -> & Hb)].
  - rewrite !loop_lines_lacks; [reflexivity | exact Hs |].
    now rewrite lacks_app, Hs, Hp.
  - rewrite append_assoc, append_cons, !loop_lines_line.
    rewrite !loop_lines_lacks; [reflexivity | exact Hb |].
    now rewrite lacks_app, Hb, Hp.
Qed.

Lemma string_of_bytes_app (a b : list Z) :
  string_of_bytes (a ++ b) = string_of_bytes a +:+ string_of_bytes b.
Proof.
  unfold string_of_bytes. induction a as [|x a IH]; [reflexivity |].
  cbn [map app string_of_list_ascii]. now rewrite append_cons, <- IH.
Qed.

Lemma lacks_NL_zeros (n : nat) : lacks NL (string_of_bytes (repeat 0 n)) = true.
Proof.
  induction n as [|n IH]; [reflexivity |].
  unfold string_of_bytes in *. cbn [repeat map string_of_list_ascii lacks].
  now rewrite IH.
Qed.

Lemma skipn_repeat {A} (x : A) (n k : nat) :
  skipn n (repeat x k) = repeat x (k - n).
Proof.
  revert n. induction k as [|k IH]; intros [|n]; simpl; try reflexivity.
  apply IH.
Qed.

(** The buffer after a read into 16384 zero bytes decodes like the
    bytes received. *)
Lemma parseResponse_buffer (got : list Z) :
  parseResponse (string_of_bytes (got ++ skipn (length got) (zeros 16384)))
  = parseResponse (string_of_bytes got).
Proof.
  rewrite string_of_bytes_app. apply parseResponse_padding.
  unfold zeros. rewrite skipn_repeat. apply lacks_NL_zeros.
Qed.

Section LegacyReplies.

Variable filepath_Join : list string -> string.

(** [X17] The datagram exchange that goes well, old protocol.  When
    the dial, the chmod, the deadline and the write succeed and the
    read delivers a datagram with no error, the exchange returns what
    closing the connection returns and adds one record to the
    accumulator; its fields are the decoding of the first 16384 bytes
    of the datagram (the zero bytes that fill the rest of the buffer
    add nothing), its tag "server" is the address. *)
Theorem gatherServer_old_protocol_success
    (p : PowerdnsRecursor) (address : string) (w : World) (s : Socket)
    (ds : list DialAnswer) (ws : list WriteAnswer)
    (a : ReadAnswer) (rs : list ReadAnswer) :
  dial_src w = DialOk s :: ds ->
  hd None (chmod_src w) = None ->
  deadline_answer s = None ->
  write_answers s = WriteOk :: ws ->
  read_answers s = a :: rs ->
  rd_err a = None ->
  received (Z.to_nat 16384) (rd_data a) <> [] ->
  exists w',
    gatherServer filepath_Join p address false w = (Ret (close_answer s), w')
    /\ acc w'
       = acc w
         ++ [AddFields "powerdns_recursor"
               (parseResponse
                  (string_of_bytes (received (Z.to_nat 16384) (rd_data a))))
               {["server" := address]}].
Proof.
  intros Hdial Hchmod Hdl Hwr Hrd Herr Hgot.
  legacy_open Hdial Hchmod Hdl w0 P.
  all: legacy_command Hwr.
  all: rewrite bind_run; unfold conn_Read at 1; world_simpl;
    rewrite lookup_insert_eq; world_simpl; rewrite Hrd; world_simpl;
    rewrite Herr, length_zeros;
    destruct (len (received (Z.to_nat 16384) (rd_data a)) =? 0) eqn:E;
    [apply Z.eqb_eq, len_nil_iff in E; contradiction |];
    rewrite parseResponse_buffer;
    rewrite bind_run; unfold acc_AddFields; world_simpl;
    unfold conn_Close at 1; world_simpl; rewrite lookup_insert_eq;
    world_simpl;
    unfold conn_Close; world_simpl; rewrite lookup_delete_eq;
    unfold os_Remove; world_simpl;
    rewrite decide_True
      by (apply elem_of_union_l, elem_of_singleton; reflexivity);
    eexists; split; reflexivity.
Qed.

(** [X18] An empty datagram is not an empty set of metrics: when the
    read of the reply delivers no byte and no error, the datagram
    exchange fails with the error "no data received" and adds nothing
    to the accumulator. *)
Theorem gatherServer_empty_reply
    (p : PowerdnsRecursor) (address : string) (w : World) (s : Socket)
    (ds : list DialAnswer) (ws : list WriteAnswer)
    (a : ReadAnswer) (rs : list ReadAnswer) :
  dial_src w = DialOk s :: ds ->
  hd None (chmod_src w) = None ->
  deadline_answer s = None ->
  write_answers s = WriteOk :: ws ->
  read_answers s = a :: rs ->
  rd_err a = None ->
  received (Z.to_nat 16384) (rd_data a) = [] ->
  exists w',
    gatherServer filepath_Join p address false w = (Ret (Some ErrNoData), w')
    /\ acc w' = acc w.
Proof.
  intros Hdial Hchmod Hdl Hwr Hrd Herr Hgot.
  legacy_open Hdial Hchmod Hdl w0 P.
  all: legacy_command Hwr.
  all: rewrite bind_run; unfold conn_Read at 1; world_simpl;
    rewrite lookup_insert_eq; world_simpl; rewrite Hrd; world_simpl;
    rewrite Herr, length_zeros, Hgot;
    change (len (@nil Z)) with 0; cbn [Z.eqb]; rewrite ret_run;
    unfold conn_Close; world_simpl; rewrite lookup_insert_eq; world_simpl;
    unfold os_Remove; world_simpl;
    rewrite decide_True
      by (apply elem_of_union_l, elem_of_singleton; reflexivity);
    eexists; split; reflexivity.
Qed.

End LegacyReplies.

Lemma gatherServer_old_protocol_success_witness :
  exists w',
    gatherServer join_plain plugin_three "/run/a.sock" false
      (world_with [DialOk (socket_with [two_metrics])])
    = (Ret (close_answer (socket_with [two_metrics])), w')
    /\ acc w'
       = acc (world_with [DialOk (socket_with [two_metrics])])
         ++ [AddFields "powerdns_recursor"
               (parseResponse
                  (string_of_bytes
                     (received (Z.to_nat 16384)
                        (rd_data {| rd_data := two_metrics;
                                    rd_err := None |}))))
               {["server" := "/run/a.sock"]}].
Proof.
  apply (gatherServer_old_protocol_success join_plain plugin_three
           "/run/a.sock" (world_with [DialOk (socket_with [two_metrics])])
           (socket_with [two_metrics]) [] [WriteOk; WriteOk]
           {| rd_data := two_metrics; rd_err := None |} []).
  - reflexivity.
  - reflexivity.
  - reflexivity.
  - reflexivity.
  - reflexivity.
  - reflexivity.
  - vm_compute. discriminate.
Defined.

Lemma gatherServer_empty_reply_witness :
  exists w',
    gatherServer join_plain plugin_three "/run/a.sock" false
      (world_with [DialOk (socket_with [[]])])
    = (Ret (Some ErrNoData), w')
    /\ acc w' = acc (world_with [DialOk (socket_with [[]])]).
Proof.
  apply (gatherServer_empty_reply join_plain plugin_three "/run/a.sock"
           (world_with [DialOk (socket_with [[]])])
           (socket_with [[]]) [] [WriteOk; WriteOk]
           {| rd_data := []; rd_err := None |} []);
    reflexivity.
Defined.

(** ** The connection of the datagram exchange *)

Lemma os_Remove_keeps_socks n : keeps socks (os_Remove n).
Proof. unfold os_Remove. prim. Qed.

Lemma defer_cleanup_keeps {A B X} (f : World -> X) (cleanup : M B)
    (body : M A) (w : World) :
  keeps f cleanup ->
  f (snd (defer cleanup body w)) = f (snd (body w)).
Proof.
  intros Hc. unfold defer. destruct (body w) as [r w1].
  specialize (Hc w1).
  destruct (cleanup w1) as [[b | msg] w2]; cbn [snd] in *; exact Hc.
Qed.

Section LegacyConnection.

Variable filepath_Join : list string -> string.

(** [X19] When its chmod succeeds, or is not reached, the datagram
    exchange leaves no connection behind: whatever else the
    environment does, the connections open afterwards are those that
    were open before. *)
Theorem gatherServer_closes
    (p : PowerdnsRecursor) (address : string) (newProtocol : bool)
    (w : World) :
  socks w !! next_fd w = None ->
  hd None (chmod_src w) = None ->
  socks (snd (gatherServer filepath_Join p address newProtocol w)) = socks w.
Proof.
  intros Hfresh Hchmod.
  unfold gatherServer. rewrite bind_run.
  destruct (rand_Int63_run w)
    as (x & w0 & -> & Hx & Hd0 & Hc0 & Hs0 & Ha0 & Hk0 & Hn0 & Hf0).
  rewrite <- Hc0 in Hchmod. rewrite <- Hk0, <- Hn0 in Hfresh.
  rewrite <- Hk0. clear Hx Hd0 Hc0 Hs0 Ha0 Hk0 Hn0 Hf0.
  match goal with
  | |- context [os_Remove ?path] => set (P := path)
  end.
  rewrite !ResolveUnixAddr_unixgram.
  rewrite (defer_cleanup_keeps socks) by apply os_Remove_keeps_socks.
  rewrite bind_run. unfold net_DialUnix, open_socket.
  destruct (dial_src w0) as [| [s | b e] ds]; world_simpl;
    try reflexivity.
  rewrite bind_run.
  match goal with
  | |- context [os_Chmod ?n ?m ?W] =>
      destruct (os_Chmod_succeeds n m W) as [-> | ->];
      [ world_simpl; exact Hchmod
      | world_simpl; apply elem_of_union_l, elem_of_singleton; reflexivity
      | | ]
  end.
  all: rewrite defer_Close_socks by frame;
    unfold others; world_simpl;
    rewrite delete_insert_eq; now apply delete_id.
Qed.

(** [X20] When the chmod of the endpoint fails, the datagram exchange
    returns the error of the chmod without closing its connection: the
    connection the dial opened is still open when the call returns.
    Nothing has been sent or added to the accumulator, and the
    endpoint file is removed. *)
Theorem gatherServer_chmod_failure
    (p : PowerdnsRecursor) (address : string) (newProtocol : bool)
    (w : World) (s : Socket) (ds : list DialAnswer)
    (e : error) (cs : list (option error)) :
  dial_src w = DialOk s :: ds ->
  chmod_src w = Some e :: cs ->
  exists w',
    gatherServer filepath_Join p address newProtocol w = (Ret (Some e), w')
    /\ socks w' !! next_fd w = Some s
    /\ sent w' = sent w
    /\ acc w' = acc w
    /\ (recvSocket_of filepath_Join p (hd 0 (rand_src w)) ∉ files w').
Proof.
  intros Hdial Hchmod.
  unfold gatherServer. rewrite bind_run.
  destruct (rand_Int63_run w)
    as (x & w0 & -> & Hx & Hd0 & Hc0 & Hs0 & Ha0 & Hk0 & Hn0 & Hf0).
  rewrite <- Hd0 in Hdial. rewrite <- Hc0 in Hchmod.
  rewrite <- Hs0, <- Ha0, <- Hn0, <- Hx.
  fold (recvSocket_of filepath_Join p x).
  set (P := recvSocket_of filepath_Join p x).
  rewrite !ResolveUnixAddr_unixgram.
  unfold defer at 1. rewrite bind_run.
  unfold net_DialUnix, open_socket. rewrite Hdial. world_simpl.
  rewrite bind_run. unfold os_Chmod. world_simpl. rewrite Hchmod.
  rewrite ret_run. unfold os_Remove. world_simpl.
  rewrite decide_True
    by (apply elem_of_union_l, elem_of_singleton; reflexivity).
  eexists. split; [reflexivity |]. world_simpl.
  split; [apply lookup_insert_eq |].
  split; [reflexivity |]. split; [reflexivity |].
  apply removed_absent.
Qed.

End LegacyConnection.

(** ** What [Gather] leaves in the accumulator *)






Section LegacyTraces.

Variable filepath_Join : list string -> string.





End LegacyTraces.



(** ** The socket mode of [Init] *)

Lemma digit_in_base_octal (c : ascii) :
  octal_digit c = true ->
  digit_in_base c = Some (Z.of_N (N_of_ascii c) - 48)
  /\ 0 <= Z.of_N (N_of_ascii c) - 48 < 8.
Proof.
  unfold octal_digit, digit_in_base. cbv zeta.
  intros H. apply andb_true_iff in H. destruct H as [H1 H2].
  apply Z.leb_le in H1, H2.
  rewrite (proj2 (Z.leb_le 48 _)) by lia.
  rewrite (proj2 (Z.leb_le _ 57)) by lia.
  split; [reflexivity | lia].
Qed.

Lemma digit_in_base_other (c : ascii) :
  octal_digit c = false ->
  digit_in_base c = None \/ exists d, digit_in_base c = Some d /\ 8 <= d.
Proof.
  unfold octal_digit, digit_in_base. cbv zeta. intros H.
  destruct (48 <=? Z.of_N (N_of_ascii c)) eqn:E1;
    destruct (Z.of_N (N_of_ascii c) <=? 57) eqn:E2; cbn [andb] in *.
  - right. eexists. split; [reflexivity |].
    apply Z.leb_gt in H. lia.
  - destruct (_ && _) eqn:E3; [| now left].
    right. eexists. split; [reflexivity |].
    apply andb_true_iff in E3. destruct E3 as [E3 _].
    apply Z.leb_le in E3. lia.
  - destruct (_ && _) eqn:E3; [| now left].
    right. eexists. split; [reflexivity |].
    apply andb_true_iff in E3. destruct E3 as [E3 _].
    apply Z.leb_le in E3. lia.
  - destruct (_ && _) eqn:E3; [| now left].
    right. eexists. split; [reflexivity |].
    apply andb_true_iff in E3. destruct E3 as [E3 _].
    apply Z.leb_le in E3. lia.
Qed.

Lemma octal_from_grows (s : string) :
  forall n, 0 <= n -> all_octal s = true -> n <= octal_from n s.
Proof.
  induction s as [| c s IH]; intros n Hn H; cbn [octal_from all_octal] in *;
    [lia |].
  apply andb_true_iff in H. destruct H as [Hc Hs].
  destruct (digit_in_base_octal c Hc) as [_ Hd].
  specialize (IH (n * 8 + (Z.of_N (N_of_ascii c) - 48)) ltac:(lia) Hs).
  lia.
Qed.

(** On octal numerals the loop computes the number they write, or
    stops with [ErrRange] when that number is too large. *)
Lemma parseUintLoopIn_octal (s : string) :
  forall n, 0 <= n <= 2 ^ 32 - 1 -> all_octal s = true ->
  parseUintLoopIn 8 (2 ^ 32 - 1) n s
  = if octal_from n s <=? 2 ^ 32 - 1 then (octal_from n s, None)
    else (2 ^ 32 - 1, Some ErrRange).
Proof.
  induction s as [| c s IH]; intros n Hn H;
    cbn [parseUintLoopIn octal_from all_octal] in *.
  - now rewrite (proj2 (Z.leb_le n _)) by lia.
  - apply andb_true_iff in H. destruct H as [Hc Hs].
    destruct (digit_in_base_octal c Hc) as [-> Hd].
    set (d := Z.of_N (N_of_ascii c) - 48) in *.
    rewrite (proj2 (Z.leb_gt 8 d)) by lia.
    change ((2 ^ 64 - 1) / 8 + 1) with (2 ^ 61).
    assert (H61 : 2 ^ 32 - 1 < 2 ^ 61) by (vm_compute; reflexivity).
    assert (H64 : 8 * 2 ^ 32 < 2 ^ 64) by (vm_compute; reflexivity).
    rewrite (proj2 (Z.leb_gt (2 ^ 61) n)) by lia.
    cbv zeta. unfold uint64.
    rewrite (Z.mod_small (n * 8)) by lia.
    rewrite (Z.mod_small (n * 8 + d)) by lia.
    rewrite (proj2 (Z.ltb_ge (n * 8 + d) (n * 8))) by lia.
    cbn [orb].
    destruct (2 ^ 32 - 1 <? n * 8 + d) eqn:E.
    + apply Z.ltb_lt in E.
      pose proof (octal_from_grows s (n * 8 + d) ltac:(lia) Hs).
      now rewrite (proj2 (Z.leb_gt _ _)) by lia.
    + apply Z.ltb_ge in E. apply IH; [lia | exact Hs].
Qed.

(** A byte that is no octal digit makes the loop fail, at that byte
    or before it. *)
Lemma parseUintLoopIn_not_octal (maxVal : Z) (s : string) :
  forall n, all_octal s = false ->
  exists v e, parseUintLoopIn 8 maxVal n s = (v, Some e).
Proof.
  induction s as [| c s IH]; intros n H;
    cbn [parseUintLoopIn all_octal] in *; [discriminate |].
  destruct (octal_digit c) eqn:Hc; cbn [andb] in H.
  - destruct (digit_in_base_octal c Hc) as [-> Hd].
    repeat match goal with
           | |- context [if ?b then _ else _] => destruct b
           end; eauto.
  - destruct (digit_in_base_other c Hc) as [-> | (d & -> & Hd)]; [eauto |].
    rewrite (proj2 (Z.leb_le 8 d)) by lia. eauto.
Qed.

Lemma SocketMode_set (p : PowerdnsRecursor) :
  SocketMode p <> "" -> negb (String.eqb (SocketMode p) "") = true.
Proof.
  intros H. apply negb_true_iff. now apply String.eqb_neq.
Qed.

(** [X23] A socket mode written in octal digits and below 2^32 is
    accepted: [Init] returns no error and sets the mode to the number
    the digits write, leaving the settings as they are. *)
Theorem Init_octal_mode (p : PowerdnsRecursor) :
  SocketMode p <> "" ->
  all_octal (SocketMode p) = true ->
  octal_value (SocketMode p) < 2 ^ 32 ->
  Init p = (set_mode (octal_value (SocketMode p)) p, None).
Proof.
  intros Hne Hoct Hval. unfold Init. rewrite SocketMode_set by exact Hne.
  unfold strconv_ParseUint, octal_value in *.
  destruct (SocketMode p) as [| c s] eqn:E; [congruence |].
  rewrite parseUintLoopIn_octal by (try exact Hoct; lia).
  rewrite (proj2 (Z.leb_le _ _)) by lia.
  pose proof (octal_from_grows _ 0 ltac:(lia) Hoct).
  unfold uint32. rewrite Z.mod_small by lia. reflexivity.
Qed.

(** [X24] A socket mode written in octal digits that is 2^32 or more
    is refused with the range error of the parser, and the plugin
    keeps the mode it had. *)
Theorem Init_mode_out_of_range (p : PowerdnsRecursor) :
  all_octal (SocketMode p) = true ->
  2 ^ 32 <= octal_value (SocketMode p) ->
  Init p = (p, Some (ErrSocketMode ErrRange)).
Proof.
  intros Hoct Hval. unfold Init.
  assert (Hne : SocketMode p <> "").
  { intros E. rewrite E in Hval. vm_compute in Hval. now apply Hval. }
  rewrite SocketMode_set by exact Hne.
  unfold strconv_ParseUint, octal_value in *.
  destruct (SocketMode p) as [| c s] eqn:E; [congruence |].
  rewrite parseUintLoopIn_octal by (try exact Hoct; lia).
  now rewrite (proj2 (Z.leb_gt _ _)) by lia.
Qed.

(** [X25] A socket mode with a byte that is no octal digit (a sign, a
    space, a prefix such as "0o", the digits 8 and 9) is refused:
    [Init] returns its error for the error of the parser, and the
    plugin keeps the mode it had. *)
Theorem Init_mode_not_octal (p : PowerdnsRecursor) :
  all_octal (SocketMode p) = false ->
  exists e, Init p = (p, Some (ErrSocketMode e)).
Proof.
  intros Hoct. unfold Init.
  assert (Hne : SocketMode p <> "").
  { intros E. rewrite E in Hoct. discriminate. }
  rewrite SocketMode_set by exact Hne.
  unfold strconv_ParseUint.
  destruct (SocketMode p) as [| c s] eqn:E; [congruence |].
  destruct (parseUintLoopIn_not_octal (2 ^ 32 - 1) _ 0 Hoct)
    as (v & e & ->).
  now exists e.
Qed.

Lemma Init_octal_mode_witness :
  Init plugin_three = (set_mode (octal_value (SocketMode plugin_three))
                                plugin_three, None).
Proof.
  apply (Init_octal_mode plugin_three).
  - discriminate.
  - reflexivity.
  - vm_compute. reflexivity.
Defined.

Lemma Init_mode_out_of_range_witness :
  Init {| UnixSockets := []; SocketDir := ""; SocketMode := "40000000000";
          NewControlProtocol := false; mode := 438 |}
  = ({| UnixSockets := []; SocketDir := ""; SocketMode := "40000000000";
        NewControlProtocol := false; mode := 438 |},
     Some (ErrSocketMode ErrRange)).
Proof.
  apply (Init_mode_out_of_range
           {| UnixSockets := []; SocketDir := ""; SocketMode := "40000000000";
              NewControlProtocol := false; mode := 438 |}).
  - reflexivity.
  - vm_compute. discriminate.
Defined.

Lemma Init_mode_not_octal_witness :
  exists e,
    Init {| UnixSockets := []; SocketDir := ""; SocketMode := "0o666";
            NewControlProtocol := false; mode := 438 |}
    = ({| UnixSockets := []; SocketDir := ""; SocketMode := "0o666";
          NewControlProtocol := false; mode := 438 |},
       Some (ErrSocketMode e)).
Proof.
  apply (Init_mode_not_octal
           {| UnixSockets := []; SocketDir := ""; SocketMode := "0o666";
              NewControlProtocol := false; mode := 438 |}).
  reflexivity.
Defined.

(** ** The datagram exchange with the protocol flag on *)

(** The two writes of the flagged exchange, successful, up to the read
    of the status. *)
Ltac flagged_command Hwr Hrd :=
  cbv beta iota;
  rewrite bind_run, bind_run; unfold conn_Write at 1; world_simpl;
  rewrite lookup_insert_eq, Hwr; world_simpl; rewrite ret_run;
  cbv beta iota;
  rewrite bind_run; unfold conn_Write at 1; world_simpl;
  rewrite lookup_insert_eq; world_simpl;
  rewrite bind_run, bind_run; unfold conn_Read at 1; world_simpl;
  rewrite lookup_insert_eq; world_simpl; rewrite Hrd; world_simpl;
  rewrite length_zeros; change (Z.to_nat 4) with 4%nat.

Section LegacyStatus.

Variable filepath_Join : list string -> string.

(** [X26] The datagram exchange that goes well, protocol flag on.
    The first datagram read is the status: it must not be empty, and
    what it holds is not looked at.  The next datagram is the reply:
    the exchange returns what closing the connection returns and adds
    one record, the decoding of the first 16384 bytes of the reply,
    tagged with the address. *)
Theorem gatherServer_new_protocol_success
    (p : PowerdnsRecursor) (address : string) (w : World) (s : Socket)
    (ds : list DialAnswer) (ws : list WriteAnswer)
    (st a : ReadAnswer) (rs : list ReadAnswer) :
  dial_src w = DialOk s :: ds ->
  hd None (chmod_src w) = None ->
  deadline_answer s = None ->
  write_answers s = WriteOk :: WriteOk :: ws ->
  read_answers s = st :: a :: rs ->
  rd_err st = None ->
  received 4 (rd_data st) <> [] ->
  rd_err a = None ->
  received (Z.to_nat 16384) (rd_data a) <> [] ->
  exists w',
    gatherServer filepath_Join p address true w = (Ret (close_answer s), w')
    /\ acc w'
       = acc w
         ++ [AddFields "powerdns_recursor"
               (parseResponse
                  (string_of_bytes (received (Z.to_nat 16384) (rd_data a))))
               {["server" := address]}].
Proof.
  intros Hdial Hchmod Hdl Hwr Hrd Hst Hgs Herr Hgot.
  legacy_open Hdial Hchmod Hdl w0 P.
  all: flagged_command Hwr Hrd.
  all: rewrite Hst;
    destruct (len (received 4 (rd_data st)) =? 0) eqn:E4;
    [apply Z.eqb_eq, len_nil_iff in E4; contradiction |];
    rewrite ret_run; cbv beta iota.
  all: rewrite bind_run; unfold conn_Read at 1; world_simpl;
    rewrite lookup_insert_eq; world_simpl;
    rewrite Herr, length_zeros;
    destruct (len (received (Z.to_nat 16384) (rd_data a)) =? 0) eqn:E;
    [apply Z.eqb_eq, len_nil_iff in E; contradiction |];
    rewrite parseResponse_buffer;
    rewrite bind_run; unfold acc_AddFields; world_simpl;
    unfold conn_Close at 1; world_simpl; rewrite lookup_insert_eq;
    world_simpl;
    unfold conn_Close; world_simpl; rewrite lookup_delete_eq;
    unfold os_Remove; world_simpl;
    rewrite decide_True
      by (apply elem_of_union_l, elem_of_singleton; reflexivity);
    eexists; split; reflexivity.
Qed.

(** [X27] With the protocol flag on, an empty first datagram ends the
    exchange: it fails with the error "no status code received" after
    sending the four zero bytes and "get-all", reads no reply, and
    adds nothing to the accumulator. *)
Theorem gatherServer_no_status
    (p : PowerdnsRecursor) (address : string) (w : World) (s : Socket)
    (ds : list DialAnswer) (ws : list WriteAnswer)
    (st : ReadAnswer) (rs : list ReadAnswer) :
  dial_src w = DialOk s :: ds ->
  hd None (chmod_src w) = None ->
  deadline_answer s = None ->
  write_answers s = WriteOk :: WriteOk :: ws ->
  read_answers s = st :: rs ->
  rd_err st = None ->
  received 4 (rd_data st) = [] ->
  exists w',
    gatherServer filepath_Join p address true w
    = (Ret (Some ErrNoStatusCode), w')
    /\ sent w' = sent w ++ [[0; 0; 0; 0]; bytes_of_string "get-all"]
    /\ acc w' = acc w.
Proof.
  intros Hdial Hchmod Hdl Hwr Hrd Hst Hgs.
  legacy_open Hdial Hchmod Hdl w0 P.
  all: flagged_command Hwr Hrd.
  all: rewrite Hst, Hgs;
    change (len (@nil Z)) with 0; cbn [Z.eqb]; rewrite ret_run;
    cbv beta iota; rewrite ret_run;
    unfold conn_Close; world_simpl; rewrite lookup_insert_eq; world_simpl;
    unfold os_Remove; world_simpl;
    rewrite decide_True
      by (apply elem_of_union_l, elem_of_singleton; reflexivity);
    eexists; split; [reflexivity |]; world_simpl;
    split; [now rewrite <- app_assoc | reflexivity].
Qed.

End LegacyStatus.

Lemma gatherServer_new_protocol_success_witness :
  exists w',
    gatherServer join_plain plugin_new "/run/pdns.controlsocket" true
      (world_with [DialOk (socket_with [[0; 0; 0; 0]; two_metrics])])
    = (Ret (close_answer (socket_with [[0; 0; 0; 0]; two_metrics])), w')
    /\ acc w'
       = acc (world_with [DialOk (socket_with [[0; 0; 0; 0]; two_metrics])])
         ++ [AddFields "powerdns_recursor"
               (parseResponse
                  (string_of_bytes
                     (received (Z.to_nat 16384)
                        (rd_data {| rd_data := two_metrics;
                                    rd_err := None |}))))
               {["server" := "/run/pdns.controlsocket"]}].
Proof.
  apply (gatherServer_new_protocol_success join_plain plugin_new
           "/run/pdns.controlsocket"
           (world_with [DialOk (socket_with [[0; 0; 0; 0]; two_metrics])])
           (socket_with [[0; 0; 0; 0]; two_metrics]) [] [WriteOk]
           {| rd_data := [0; 0; 0; 0]; rd_err := None |}
           {| rd_data := two_metrics; rd_err := None |} []).
  - reflexivity.
  - reflexivity.
  - reflexivity.
  - reflexivity.
  - reflexivity.
  - reflexivity.
  - vm_compute. discriminate.
  - reflexivity.
  - vm_compute. discriminate.
Defined.

Lemma gatherServer_no_status_witness :
  exists w',
    gatherServer join_plain plugin_new "/run/pdns.controlsocket" true
      (world_with [DialOk (socket_with [[]; two_metrics])])
    = (Ret (Some ErrNoStatusCode), w')
    /\ sent w'
       = sent (world_with [DialOk (socket_with [[]; two_metrics])])
         ++ [[0; 0; 0; 0]; bytes_of_string "get-all"]
    /\ acc w' = acc (world_with [DialOk (socket_with [[]; two_metrics])]).
Proof.
  apply (gatherServer_no_status join_plain plugin_new
           "/run/pdns.controlsocket"
           (world_with [DialOk (socket_with [[]; two_metrics])])
           (socket_with [[]; two_metrics]) [] [WriteOk]
           {| rd_data := []; rd_err := None |}
           [{| rd_data := two_metrics; rd_err := None |}]);
    reflexivity.
Defined.

(** The parser of [Init] is the parser of the decoder: in base 10 and
    64 bits, the general loop is the loop the decoder's integers go
    through. *)
Lemma digit_in_base_decimal (c : ascii) :
  match digit_of c with
  | Some d => digit_in_base c = Some d /\ 0 <= d < 10
  | None => digit_in_base c = None
                \/ exists d, digit_in_base c = Some d /\ 10 <= d
  end.
Proof.
  unfold digit_of, digit_in_base. cbv zeta.
  destruct ((48 <=? Z.of_N (N_of_ascii c)) && (Z.of_N (N_of_ascii c) <=? 57))
    eqn:E.
  - split; [reflexivity |].
    apply andb_true_iff in E. destruct E as [E1 E2].
    apply Z.leb_le in E1, E2. lia.
  - cbv iota. destruct ((97 <=? _) && _) eqn:E3; [| now left].
    right. eexists. split; [reflexivity |].
    apply andb_true_iff in E3. destruct E3 as [E3 _].
    apply Z.leb_le in E3. lia.
Qed.

Lemma parseUintLoopIn_decimal (s : string) :
  forall n, 0 <= n ->
  parseUintLoopIn 10 (2 ^ 64 - 1) n s = parseUintLoop n s.
Proof.
  induction s as [| c s IH]; intros n Hn;
    cbn [parseUintLoopIn parseUintLoop]; [reflexivity |].
  pose proof (digit_in_base_decimal c) as Hd.
  destruct (digit_of c) as [d |].
  - destruct Hd as [-> Hd].
    rewrite (proj2 (Z.leb_gt 10 d)) by lia.
    change ((2 ^ 64 - 1) / 10 + 1) with 1844674407370955162.
    destruct (1844674407370955162 <=? n) eqn:Ec; [reflexivity |].
    apply Z.leb_gt in Ec. cbv zeta. unfold uint64.
    change (2 ^ 64) with 18446744073709551616.
    rewrite (Z.mod_small (n * 10)) by lia.
    destruct (Z_lt_dec (n * 10 + d) 18446744073709551616) as [Hlt | Hge].
    + rewrite (Z.mod_small (n * 10 + d)) by lia.
      rewrite (proj2 (Z.ltb_ge (n * 10 + d) (n * 10))) by lia.
      cbn [orb].
      destruct (18446744073709551616 - 1 <? n * 10 + d) eqn:E;
        [reflexivity |].
      apply IH. lia.
    + assert (Hw : (n * 10 + d) mod 18446744073709551616
                   = n * 10 + d - 18446744073709551616).
      { symmetry. apply Z.mod_unique_pos with (q := 1); lia. }
      rewrite Hw.
      rewrite (proj2 (Z.ltb_lt _ (n * 10))) by lia.
      cbn [orb].
      now rewrite (proj2 (Z.ltb_lt _ (n * 10 + d))) by lia.
  - destruct Hd as [-> | (d & -> & Hd)]; [reflexivity |].
    now rewrite (proj2 (Z.leb_le 10 d)) by lia.
Qed.

Lemma strconv_ParseUint_decimal (s : string) :
  strconv_ParseUint s 10 64 = ParseUint s.
Proof.
  unfold strconv_ParseUint, ParseUint.
  destruct s; [reflexivity |]. apply parseUintLoopIn_decimal. lia.
Qed.

Lemma gatherServer_closes_witness :
  socks (snd (gatherServer join_plain plugin_three "/run/a.sock" false
                world_three))
  = socks world_three.
Proof.
  apply (gatherServer_closes join_plain plugin_three "/run/a.sock" false
           world_three).
  - reflexivity.
  - reflexivity.
Defined.

Lemma gatherServer_chmod_failure_witness :
  exists w',
    gatherServer join_plain plugin_three "/run/a.sock" false
      world_chmod_refused
    = (Ret (Some (OSError "operation not permitted")), w')
    /\ socks w' !! next_fd world_chmod_refused
       = Some (socket_with [two_metrics])
    /\ sent w' = sent world_chmod_refused
    /\ acc w' = acc world_chmod_refused
    /\ (recvSocket_of join_plain plugin_three
          (hd 0 (rand_src world_chmod_refused)) ∉ files w').
Proof.
  apply (gatherServer_chmod_failure join_plain plugin_three "/run/a.sock"
           false world_chmod_refused (socket_with [two_metrics]) []
           (OSError "operation not permitted") []).
  - reflexivity.
  - reflexivity.
Defined.
